(** * beet.toolchain.generator: Generator and Draft

    A shallow embedding of [src/beet/toolchain/generator.py].  Python objects
    are kept in a store indexed by references, because the module shares
    registries and packs between generators and mutates the root generator in
    place.  Methods are computations in a state-and-exception monad over that
    store. *)

From Stdlib Require Import Ascii String DecimalString.
From stdpp Require Import gmap strings list fin_maps.

Local Open Scope string_scope.
Local Open Scope list_scope.

(** ** Python values that occur as scope segments and registry keys *)

(** A scope is a [Tuple[Any, ...]]: plugins extend it with strings, numbers
    and, in [__call__] and [function_tree], with class objects. *)
Inductive pyval :=
  | PStr (s : string)
  | PInt (z : Z)
  | PType (name : string).

#[global] Instance pyval_eq_dec : EqDecision pyval.
Proof. solve_decision. Defined.

#[global] Instance pyval_countable : Countable pyval.
Proof.
  refine (inj_countable'
    (fun v => match v with
              | PStr s => inl s
              | PInt z => inr (inl z)
              | PType n => inr (inr n)
              end)
    (fun x => match x with
              | inl s => PStr s
              | inr (inl z) => PInt z
              | inr (inr n) => PType n
              end) _).
  by intros [].
Defined.

(** References into the object store. *)
Abbreviation loc := nat (only parsing).

(** ** Exceptions and outcomes *)

(** The built-in exceptions the module can raise, an exception raised by a
    collaborator (a failed load, save or merge), and [Unmodelled] for the
    behaviour of Python that the embedding does not describe. *)
Inductive exn :=
  | KeyError (k : string)
  | IndexError
  | ValueError (msg : string)
  | TypeError (msg : string)
  | CollaboratorError (msg : string)
  | Unmodelled (what : string).

Inductive outcome (A : Type) :=
  | Ok (a : A)
  | Raise (e : exn).
Arguments Ok {A} a.
Arguments Raise {A} e.

(** [type(e).__name__] for the built-in exceptions.  The class of an
    exception of a collaborator is the collaborator's own. *)
Definition exn_class (e : exn) : option string :=
  match e with
  | KeyError _ => Some "KeyError"
  | IndexError => Some "IndexError"
  | ValueError _ => Some "ValueError"
  | TypeError _ => Some "TypeError"
  | CollaboratorError _ | Unmodelled _ => None
  end.

(** ** Files and the container collaborator *)

(** Modelled from the spec: an artifact ([NamespaceFile] of [beet.library],
    not in this module) as far as the generator looks at it: its declared
    kind, [type(file_instance)], and its serialized content. *)
Record File := mkFile {
  file_class : string;
  file_lines : list string;
}.

#[global] Instance File_eq_dec : EqDecision File.
Proof. solve_decision. Defined.

(** Modelled from the spec: the container collaborator ([ResourcePack] and
    [DataPack] of [beet.library], not in this module).  The generator only
    calls the operations below, so they are an interface; each may fail with
    an exception of its own. *)
Class Container := {
  pack : Type;
  filesystem : Type;
  (** [ResourcePack()] / [DataPack()] *)
  pack_new : pack;
  (** truth value of a pack, [if self.assets:] *)
  pack_bool : pack -> bool;
  (** [pack[key]] *)
  pack_getitem : string -> pack -> option File;
  (** [pack[key] = file_instance] *)
  pack_setitem : string -> File -> pack -> outcome pack;
  (** [dst.merge(src)], giving the new content of [dst] *)
  pack_merge : pack -> pack -> outcome pack;
  (** [p.load(path)], giving the new content of [p] *)
  pack_load : filesystem -> string -> pack -> outcome pack;
  (** [p.save(path=path, overwrite=True)], giving the new file system *)
  pack_save : string -> pack -> filesystem -> outcome filesystem;
}.

(** ** Objects *)

(** [@dataclass class Generator]; [Draft] is a subclass without fields of its
    own, so the class is a flag ([__getitem__] builds [self.__class__]). *)
Record Generator := mkGenerator {
  is_draft : bool;
  ctx : loc;
  scope : list pyval;
  registry : loc;
  assets : loc;
  data : loc;
  parent_assets : loc;
  parent_data : loc;
}.

#[global] Instance Generator_inhabited : Inhabited Generator :=
  populate (mkGenerator false 0 [] 0 0 0 0 0).

(** Modelled from the spec: [Context] (of [beet.toolchain.context], not in
    this module) as far as the generator reads it: [project_id], [meta],
    [cache] and [generate], the root generator.  Of [meta] the string-valued
    entries are kept.  The cache collaborator gives keyed access to buckets;
    a bucket has a string-keyed metadata map, [json], and a directory,
    [cache_path / name]. *)
Record Context := mkContext {
  project_id : string;
  meta : gmap string string;
  cache : gmap string (gmap string string);
  cache_path : string;
  generate : loc;
}.

#[global] Instance Context_inhabited : Inhabited Context :=
  populate (mkContext "" ∅ ∅ "" 0).

(** The value passed as [hash]: a value given by the caller, or the closure
    [lambda: file_instance.ensure_serialized()] that [__call__] builds. *)
Inductive hashval :=
  | HValue (v : string)
  | HSerialized (f : File).

(** ** str.format_map: reading the template *)

(** [fmt.format_map(env)] is Python's built-in formatter.  It is modelled
    after the language reference and CPython's [string_format.h]: the
    template is read left to right, each replacement field is rendered when
    it is reached, and an error stops the call without undoing the effects of
    the fields rendered before it.  Rendering a value with a non-empty format
    spec, a conversion ([!r], [!s], [!a]) and attribute or index access
    inside a field are outside the model and end in [Unmodelled]. *)

Inductive token :=
  | TLiteral (text : string)
  | TField (field_name : string) (conversion : option ascii) (format_spec : string).

(** The states of the reader of [MarkupIterator_next] and [parse_field]. *)
Inductive scan :=
  | InText (text : string)
  | AfterOpen (text : string)
  | AfterClose (text : string)
  | InName (name : string)
  | InIndex (name : string)
  | AfterBang (name : string)
  | AfterConversion (name : string) (conversion : ascii)
  | InSpec (name : string) (conversion : option ascii) (depth : nat) (spec : string).

Definition snoc (s : string) (c : ascii) : string := s +:+ String c "".

Definition name_step (name : string) (c : ascii) : string + list token * scan :=
  if decide (c = "{"%char) then inl "unexpected '{' in field name"
  else if decide (c = "["%char) then inr ([], InIndex (snoc name c))
  else if decide (c = "}"%char) then inr ([TField name None ""], InText "")
  else if decide (c = ":"%char) then inr ([], InSpec name None 1 "")
  else if decide (c = "!"%char) then inr ([], AfterBang name)
  else inr ([], InName (snoc name c)).

Definition scan_step (st : scan) (c : ascii) : string + list token * scan :=
  match st with
  | InText text =>
      if decide (c = "{"%char) then inr ([], AfterOpen text)
      else if decide (c = "}"%char) then inr ([], AfterClose text)
      else inr ([], InText (snoc text c))
  | AfterOpen text =>
      if decide (c = "{"%char) then inr ([], InText (snoc text c))
      else match name_step "" c with
           | inl msg => inl msg
           | inr (toks, st') => inr (TLiteral text :: toks, st')
           end
  | AfterClose text =>
      if decide (c = "}"%char) then inr ([], InText (snoc text c))
      else inl "Single '}' encountered in format string"
  | InName name => name_step name c
  | InIndex name =>
      if decide (c = "]"%char) then inr ([], InName (snoc name c))
      else inr ([], InIndex (snoc name c))
  | AfterBang name => inr ([], AfterConversion name c)
  | AfterConversion name conv =>
      if decide (c = "}"%char) then inr ([TField name (Some conv) ""], InText "")
      else if decide (c = ":"%char) then inr ([], InSpec name (Some conv) 1 "")
      else inl "expected ':' after conversion specifier"
  | InSpec name conv depth spec =>
      if decide (c = "{"%char) then inr ([], InSpec name conv (S depth) (snoc spec c))
      else if decide (c = "}"%char) then
        match depth with
        | 0 | 1 => inr ([TField name conv spec], InText "")
        | S d => inr ([], InSpec name conv d (snoc spec c))
        end
      else inr ([], InSpec name conv depth (snoc spec c))
  end.

Definition scan_end (st : scan) : list token * option string :=
  match st with
  | InText text => ([TLiteral text], None)
  | AfterOpen _ => ([], Some "Single '{' encountered in format string")
  | AfterClose _ => ([], Some "Single '}' encountered in format string")
  | InName _ | InIndex _ => ([], Some "expected '}' before end of string")
  | AfterBang _ => ([], Some "end of string while looking for conversion specifier")
  | AfterConversion _ _ | InSpec _ _ _ _ => ([], Some "unmatched '{' in format spec")
  end.

(** The tokens of a template and the [ValueError] that ends it, if any. *)
Fixpoint tokenize_from (st : scan) (s : string) : list token * option string :=
  match s with
  | EmptyString => scan_end st
  | String c rest =>
      match scan_step st c with
      | inl msg => ([], Some msg)
      | inr (toks, st') =>
          let '(more, err) := tokenize_from st' rest in (toks ++ more, err)
      end
  end.

Definition tokenize (s : string) : list token * option string :=
  tokenize_from (InText "") s.

(** [field_name_split]: the first part of a field name ends at the first
    [.] or [[]; what follows is attribute and index access. *)
Fixpoint field_name_split (name : string) : string * string :=
  match name with
  | EmptyString => ("", "")
  | String c rest =>
      if decide (c = "."%char \/ c = "["%char) then ("", name)
      else let '(first, more) := field_name_split rest in (String c first, more)
  end.

Definition is_digit (c : ascii) : bool :=
  (48 <=? nat_of_ascii c)%nat && (nat_of_ascii c <=? 57)%nat.

(** An empty or numeric first part is a positional field. *)
Definition positional (first : string) : bool :=
  forallb is_digit (list_ascii_of_string first).

(** [format_spec_needs_expanding]: the spec contains a nested field. *)
Fixpoint needs_expanding (spec : string) : bool :=
  match spec with
  | EmptyString => false
  | String c rest => bool_decide (c = "{"%char) || needs_expanding rest
  end.

(** The names a template looks up in the mapping: the first part of every
    replacement field, also of the fields nested in format specs, which are
    expanded one level deep. *)
Fixpoint fields_at (recursion_depth : nat) (input : string) : list string :=
  match recursion_depth with
  | 0 => []
  | S d =>
      flat_map
        (fun t => match t with
                  | TLiteral _ => []
                  | TField field_name _ format_spec =>
                      (field_name_split field_name).1 ::
                      (if needs_expanding format_spec then fields_at d format_spec else [])
                  end)
        (tokenize input).1
  end.

Definition template_fields (fmt : string) : list string := fields_at 2 fmt.

(** A replacement field of the plain form [{name}]: no attribute or index
    access, no conversion and no format spec. *)
Definition plain_field (t : token) : bool :=
  match t with
  | TLiteral _ => true
  | TField field_name conversion format_spec =>
      bool_decide ((field_name_split field_name).2 = "" /\ conversion = None /\
                   format_spec = "")
  end.

(** A template whose replacement fields are all plain. *)
Definition plain_template (fmt : string) : bool :=
  forallb plain_field (tokenize fmt).1.

Section Beet.

Context `{Container}.

(** [stable_hash] of [beet.toolchain.utils] (not in this module), a
    parameter: a pure function of the value and of [short]. *)
Variable stable_hash_fn : hashval -> bool -> string.

(** [namespace_type.field_map] of the data pack and of the resource pack
    (tables of [beet.library], parameters here): file class to group name. *)
Variable data_field_map : gmap string string.
Variable assets_field_map : gmap string string.

(** The store: the objects behind the references, the file system of the
    cache and the record of the hash calls.  A registry is a
    [defaultdict(int)].  A reference the store does not hold reads as an
    empty object; Python has no such reference. *)
Record World := mkWorld {
  generators : gmap loc Generator;
  contexts : gmap loc Context;
  registries : gmap loc (gmap (list pyval) Z);
  packs : gmap loc pack;
  fs : filesystem;
  (** every invocation of [stable_hash], oldest first *)
  hash_calls : list (hashval * bool);
}.

(** Computations: an exception leaves the store as it is at the raise. *)
Definition M (A : Type) : Type := World -> outcome A * World.

Definition ret {A} (a : A) : M A := fun w => (Ok a, w).
Definition raise {A} (e : exn) : M A := fun w => (Raise e, w).
Definition bind {A B} (m : M A) (k : A -> M B) : M B :=
  fun w => match m w with
           | (Ok a, w') => k a w'
           | (Raise e, w') => (Raise e, w')
           end.
Definition gets {A} (f : World -> A) : M A := fun w => (Ok (f w), w).
Definition modify (f : World -> World) : M unit := fun w => (Ok tt, f w).
Definition lift {A} (o : outcome A) : M A := fun w => (o, w).

Notation "x <- m ;; k" := (bind m (fun x => k))
  (at level 100, m at next level, right associativity).
Notation "m ;;; k" := (bind m (fun _ => k))
  (at level 100, right associativity).

(** A computation keeps a relation between the store before and after. *)
Definition preserves (P : World -> World -> Prop) {A} (m : M A) : Prop :=
  forall w, P w (m w).2.

(** Field updates of the store. *)
Definition set_generators (f : gmap loc Generator -> gmap loc Generator) (w : World) : World :=
  mkWorld (f (generators w)) (contexts w) (registries w) (packs w) (fs w) (hash_calls w).
Definition set_contexts (f : gmap loc Context -> gmap loc Context) (w : World) : World :=
  mkWorld (generators w) (f (contexts w)) (registries w) (packs w) (fs w) (hash_calls w).
Definition set_registries
    (f : gmap loc (gmap (list pyval) Z) -> gmap loc (gmap (list pyval) Z)) (w : World) : World :=
  mkWorld (generators w) (contexts w) (f (registries w)) (packs w) (fs w) (hash_calls w).
Definition set_packs (f : gmap loc pack -> gmap loc pack) (w : World) : World :=
  mkWorld (generators w) (contexts w) (registries w) (f (packs w)) (fs w) (hash_calls w).
Definition set_fs (f : filesystem -> filesystem) (w : World) : World :=
  mkWorld (generators w) (contexts w) (registries w) (packs w) (f (fs w)) (hash_calls w).
Definition set_hash_calls (f : list (hashval * bool) -> list (hashval * bool)) (w : World) : World :=
  mkWorld (generators w) (contexts w) (registries w) (packs w) (fs w) (f (hash_calls w)).

(** Reading an object through a reference. *)
Definition self_of (self : loc) (w : World) : Generator := generators w !!! self.
Definition ctx_of (self : loc) (w : World) : Context := contexts w !!! ctx (self_of self w).
Definition pack_at (p : loc) (w : World) : pack := default pack_new (packs w !! p).
Definition registry_at (r : loc) (w : World) : gmap (list pyval) Z :=
  default ∅ (registries w !! r).

(** ** Generator.__getitem__ *)

(** [self.__class__(ctx=self.ctx, scope=self.scope + (key,), ...)]: a new
    object; every other field is copied, so the references are shared. *)
Definition getitem (self : loc) (key : pyval) : M loc := fun w =>
  let g := self_of self w in
  let child := mkGenerator (is_draft g) (ctx g) (scope g ++ [key]) (registry g)
                 (assets g) (data g) (parent_assets g) (parent_data g) in
  let l := fresh (dom (generators w)) in
  (Ok l, set_generators <[l := child]> w).

(** ** Generator.push *)

(** The five locals [previous_*] of [push]. *)
Record pushed := mkPushed {
  previous_scope : list pyval;
  previous_assets : loc;
  previous_data : loc;
  previous_parent_assets : loc;
  previous_parent_data : loc;
}.

Definition pushed_of (g : Generator) : pushed :=
  mkPushed (scope g) (assets g) (data g) (parent_assets g) (parent_data g).

(** The five attribute assignments on [root]; [ctx], [registry] and the class
    of the object are not assigned. *)
Definition assign_pushed (p : pushed) (g : Generator) : Generator :=
  mkGenerator (is_draft g) (ctx g) (previous_scope p) (registry g)
    (previous_assets p) (previous_data p)
    (previous_parent_assets p) (previous_parent_data p).

Definition assign_root (root : loc) (p : pushed) (w : World) : World :=
  set_generators <[root := assign_pushed p (generators w !!! root)]> w.

(** The code of [push] before its [yield]: returns the locals that are live
    across the suspension, [root] and the saved fields. *)
Definition push_enter (self : loc) : M (loc * pushed) := fun w =>
  let root := generate (ctx_of self w) in
  let previous := pushed_of (self_of root w) in
  (Ok (root, previous), assign_root root (pushed_of (self_of self w)) w).

(** The [finally] block. *)
Definition push_exit (root : loc) (previous : pushed) : M unit :=
  modify (assign_root root previous).

(** [with self.push(): body].  [contextlib.contextmanager] throws an
    exception of the body into the generator at its [yield], so the
    [finally] block runs on both exits, and the exception is raised again. *)
Definition with_push {A} (self : loc) (body : M A) : M A := fun w =>
  match push_enter self w with
  | (Ok (root, previous), w1) =>
      let '(r, w2) := body w1 in
      match push_exit root previous w2 with
      | (Ok _, w3) => (r, w3)
      | (Raise e, w3) => (Raise e, w3)
      end
  | (Raise e, w1) => (Raise e, w1)
  end.

(** ** Generator.get_prefix *)

(** [part and isinstance(part, str)] *)
Definition prefix_part (part : pyval) : option string :=
  match part with
  | PStr s => if decide (s = "") then None else Some s
  | _ => None
  end.

Definition get_prefix_of (c : Context) (g : Generator) (separator : string) : string :=
  let prefix :=
    match meta c !! "generate_prefix" with
    | Some prefix_value =>
        if decide (prefix_value = "") then [] else [PStr prefix_value]
    | None => []
    end in
  String.concat ""
    (omap (fun part => (fun s => s +:+ separator) <$> prefix_part part) (prefix ++ scope g)).

Definition get_prefix (self : loc) (separator : string) : M string :=
  gets (fun w => get_prefix_of (ctx_of self w) (self_of self w) separator).

(** ** Generator.get_increment *)

(** [(self.ctx.project_id, *self.scope, *key)] *)
Definition increment_key (c : Context) (g : Generator) (key : list pyval) : list pyval :=
  PStr (project_id c) :: scope g ++ key.

(** [count = self.registry[key]; self.registry[key] += 1; return count].
    The registry is a [defaultdict(int)]: a missing key reads as 0. *)
Definition get_increment (self : loc) (key : list pyval) : M Z := fun w =>
  let g := self_of self w in
  let k := increment_key (ctx_of self w) g key in
  let count := default 0%Z (registry_at (registry g) w !! k) in
  (Ok count,
   set_registries <[registry g := <[k := (count + 1)%Z]> (registry_at (registry g) w)]> w).

(** A run of calls of [get_increment], each with its own receiver and key,
    and the values they return. *)
Fixpoint get_increments (calls : list (loc * list pyval)) : M (list Z) :=
  match calls with
  | [] => ret []
  | (self, key) :: rest =>
      n <- get_increment self key ;;
      ns <- get_increments rest ;;
      ret (n :: ns)
  end.

(** The counter a call reads: the registry of the receiver and the
    composite key. *)
Definition counter_of (w : World) (call : loc * list pyval) : loc * list pyval :=
  (registry (self_of call.1 w),
   increment_key (ctx_of call.1 w) (self_of call.1 w) call.2).

(** The values returned to those calls of a run that read counter [k]. *)
Fixpoint returned_on (w : World) (k : loc * list pyval)
    (calls : list (loc * list pyval)) (ns : list Z) : list Z :=
  match calls, ns with
  | call :: calls', n :: ns' =>
      if decide (counter_of w call = k) then n :: returned_on w k calls' ns'
      else returned_on w k calls' ns'
  | _, _ => []
  end.

(** ** str.format_map: rendering *)

(** Modelled from the spec: [LazyFormat] of [beet.toolchain.utils] (not in
    this module) wraps a zero-argument computation, which the formatter
    invokes only when the placeholder is substituted.  A value of the mapping
    given to [format_map] is a [str] or a [LazyFormat(func)]. *)
Inductive env_value :=
  | Eager (s : string)
  | LazyFormat (func : M string).

(** [format(value, format_spec)] *)
Definition render_field (v : env_value) (format_spec : string) : M string :=
  s <- match v with
       | Eager s => ret s
       | LazyFormat func => func
       end ;;
  if decide (format_spec = "") then ret s
  else raise (Unmodelled "non-empty format spec").

(** [output_markup]: look the object up, convert it, expand the format
    spec, render. *)
Definition output_markup (expand : string -> M string) (env : gmap string env_value)
    (field_name : string) (conversion : option ascii) (format_spec : string) : M string :=
  let '(first, more) := field_name_split field_name in
  if positional first then raise (ValueError "Format string contains positional fields")
  else match env !! first with
       | None => raise (KeyError first)
       | Some v =>
           if decide (more = "") then
             match conversion with
             | Some c =>
                 if decide (c = "r"%char \/ c = "s"%char \/ c = "a"%char)
                 then raise (Unmodelled "conversion")
                 else raise (ValueError "Unknown conversion specifier")
             | None =>
                 spec <- (if needs_expanding format_spec then expand format_spec
                          else ret format_spec) ;;
                 render_field v spec
             end
           else raise (Unmodelled "attribute or index access in a replacement field")
       end.

Fixpoint render_tokens (expand : string -> M string) (env : gmap string env_value)
    (toks : list token) : M string :=
  match toks with
  | [] => ret ""
  | TLiteral text :: rest =>
      tail <- render_tokens expand env rest ;; ret (text +:+ tail)
  | TField field_name conversion format_spec :: rest =>
      s <- output_markup expand env field_name conversion format_spec ;;
      tail <- render_tokens expand env rest ;;
      ret (s +:+ tail)
  end.

(** [build_string]: nested fields of a format spec are expanded by a
    recursive call with one level less. *)
Fixpoint build_string (env : gmap string env_value) (recursion_depth : nat)
    (input : string) : M string :=
  match recursion_depth with
  | 0 => raise (ValueError "Max string recursion exceeded")
  | S d =>
      let '(toks, err) := tokenize input in
      out <- render_tokens (build_string env d) env toks ;;
      match err with
      | None => ret out
      | Some msg => raise (ValueError msg)
      end
  end.

Definition format_map (env : gmap string env_value) (fmt : string) : M string :=
  build_string env 2 fmt.

(** ** Generator.format *)

(** A call of [stable_hash].  The call is recorded in [hash_calls], which
    nothing reads: it makes the invocation observable. *)
Definition stable_hash (value : hashval) (short : bool) : M string := fun w =>
  (Ok (stable_hash_fn value short), set_hash_calls (fun l => l ++ [(value, short)]) w).

(** [str(n)] for an [int]. *)
Definition str_of_int (n : Z) : string := NilZero.string_of_int (Z.to_int n).

Definition format_env (self : loc) (fmt : string) (hash : option hashval) (w : World)
    : gmap string env_value :=
  let env : gmap string env_value :=
    <["incr" := LazyFormat (n <- get_increment self [PStr fmt] ;; ret (str_of_int n))]>
    (<["scope" := LazyFormat (get_prefix self ".")]>
    (<["path" := LazyFormat (get_prefix self "/")]>
    (<["namespace" :=
         Eager (default (project_id (ctx_of self w))
                  (meta (ctx_of self w) !! "generate_namespace"))]> ∅))) in
  match hash with
  | Some value =>
      <["short_hash" := LazyFormat (stable_hash value true)]>
      (<["hash" := LazyFormat (stable_hash value false)]> env)
  | None => env
  end.

Definition format (self : loc) (fmt : string) (hash : option hashval) : M string :=
  env <- gets (format_env self fmt hash) ;;
  format_map env fmt.

(** ** Generator.path, Generator.id, Generator.hash *)

Definition meta_get (self : loc) (key default_value : string) : M string :=
  gets (fun w => default default_value (meta (ctx_of self w) !! key)).

Definition path (self : loc) (fmt : string) (hash : option hashval) : M string :=
  template <- meta_get self "generate_path" "{namespace}:{path}" ;;
  format self (template +:+ fmt) hash.

Definition Generator_id (self : loc) (fmt : string) (hash : option hashval) : M string :=
  template <- meta_get self "generate_id" "{namespace}.{scope}" ;;
  format self (template +:+ fmt) hash.

Definition Generator_hash (self : loc) (fmt : string) (hash : option hashval)
    (short : bool) : M string :=
  template <- meta_get self "generate_hash" "{namespace}.{scope}" ;;
  formatted <- format self (template +:+ fmt) hash ;;
  stable_hash (HValue formatted) short.

(** The defaults of the [fmt] parameters. *)
Definition path_default_fmt : string := "generated_{incr}".
Definition id_default_fmt : string := "{incr}".

(** ** Generator.__call__ *)

(** A positional argument: a template or a file instance. *)
Inductive pyarg :=
  | ArgStr (s : string)
  | ArgFile (f : File).

(** [self.ctx.template.render_file(render, **kwargs)] under
    [self.ctx.override(render_path=..., render_group=...)]: the template
    collaborator. *)
Variable render_file : string -> string -> File -> list (string * string) -> M unit.

(** [pack[key] = file_instance] on the pack behind a reference. *)
Definition setitem (p : loc) (key : string) (f : File) : M unit := fun w =>
  match pack_setitem key f (pack_at p w) with
  | Ok q => (Ok tt, set_packs <[p := q]> w)
  | Raise e => (Raise e, w)
  end.

(** The first [if]/[elif]/[else] of [__call__]: [(fmt, file_instance)].
    [args[0]] on the empty tuple raises [IndexError]. *)
Definition call_arguments (args : list pyarg) (render : option File)
    : outcome (option pyarg * pyarg) :=
  match render with
  | Some r => Ok (head args, ArgFile r)
  | None =>
      match args with
      | [fmt; file_instance] => Ok (Some fmt, file_instance)
      | file_instance :: _ => Ok (None, file_instance)
      | [] => Raise IndexError
      end
  end.

(** [if fmt] *)
Definition fmt_truthy (fmt : option pyarg) : bool :=
  match fmt with
  | None => false
  | Some (ArgStr s) => negb (bool_decide (s = ""))
  | Some (ArgFile _) => true
  end.

Definition call (self : loc) (args : list pyarg) (render : option File)
    (hash : option hashval) (kwargs : list (string * string)) : M string :=
  sel <- lift (call_arguments args render) ;;
  let '(fmt, file_arg) := sel in
  match file_arg with
  | ArgStr _ => raise (Unmodelled "file_instance is not a file")
  | ArgFile file_instance =>
      let hash := match hash, render with
                  | None, None => Some (HSerialized file_instance)
                  | _, _ => hash
                  end in
      let file_type := file_class file_instance in
      key <- (if fmt_truthy fmt then
                child <- getitem self (PType file_type) ;;
                match fmt with
                | Some (ArgStr f) => path child f hash
                | _ => raise (TypeError "can only concatenate str to str")
                end
              else
                child <- getitem self (PType file_type) ;;
                path child path_default_fmt hash) ;;
      g <- gets (self_of self) ;;
      let in_data := bool_decide (is_Some (data_field_map !! file_type)) in
      let p := if in_data then data g else assets g in
      setitem p key file_instance ;;;
      match render with
      | Some r =>
          match (if in_data then data_field_map else assets_field_map) !! file_type with
          | Some render_group => render_file key render_group r kwargs
          | None => raise (KeyError file_type)
          end
      | None => ret tt
      end ;;;
      ret key
  end.

(** ** Generator.draft *)

Definition new_pack : M loc := fun w =>
  let l := fresh (dom (packs w)) in (Ok l, set_packs <[l := pack_new]> w).

Definition draft (self : loc) : M loc :=
  g <- gets (self_of self) ;;
  a <- new_pack ;;
  d <- new_pack ;;
  fun w =>
    let l := fresh (dom (generators w)) in
    (Ok l,
     set_generators
       <[l := mkGenerator true (ctx g) (scope g) (registry g) a d (assets g) (data g)]> w).

(** ** Draft.apply *)

(** [dst.merge(src)] on the packs behind two references. *)
Definition merge_into (dst src : loc) : M unit := fun w =>
  match pack_merge (pack_at dst w) (pack_at src w) with
  | Ok q => (Ok tt, set_packs <[dst := q]> w)
  | Raise e => (Raise e, w)
  end.

(** [is not] compares references. *)
Definition Draft_apply (self : loc) : M unit :=
  g <- gets (self_of self) ;;
  (if decide (assets g = parent_assets g) then ret tt
   else merge_into (parent_assets g) (assets g)) ;;;
  g <- gets (self_of self) ;;
  (if decide (data g = parent_data g) then ret tt
   else merge_into (parent_data g) (data g)).

(** What [apply()] leaves alone: it only writes packs. *)
Definition same_but_packs (w w' : World) : Prop :=
  generators w' = generators w /\ contexts w' = contexts w /\
  registries w' = registries w /\ fs w' = fs w /\ hash_calls w' = hash_calls w.

(** Populating a draft by hand: [draft.data[key] = file] or
    [draft.assets[key] = file]. *)
Definition populate (self : loc) (in_data : bool) (key : string) (file : File) : M unit :=
  g <- gets (self_of self) ;;
  setitem (if in_data then data g else assets g) key file.



(** ** Draft.cache *)

(** Modelled from the spec: [self.ctx.cache[name]], the bucket of the cache
    collaborator, is its json metadata; a bucket never used reads as empty
    metadata. *)
Definition bucket_json (c : Context) (name : string) : gmap string string :=
  default ∅ (cache c !! name).

Definition set_bucket_json (c : loc) (name key value : string) (w : World) : World :=
  set_contexts
    <[c := let x := contexts w !!! c in
           mkContext (project_id x) (meta x)
             (<[name := <[key := value]> (bucket_json x name)]> (cache x))
             (cache_path x) (generate x)]> w.

(** Modelled from the spec: [cache.directory / filename], the directory of
    a bucket being [cache_path / name]. *)
Definition bucket_file (c : Context) (name filename : string) : string :=
  cache_path c +:+ "/" +:+ name +:+ "/" +:+ filename.

(** [suffix = ".zip" if zipped else ""] and the two paths
    [cache.directory / f"draft_resource_pack{suffix}"] and
    [cache.directory / f"draft_data_pack{suffix}"]. *)
Definition cached_resource_pack_of (x : Context) (name : string) (zipped : bool) : string :=
  bucket_file x name ("draft_resource_pack" +:+ (if zipped then ".zip" else "")).
Definition cached_data_pack_of (x : Context) (name : string) (zipped : bool) : string :=
  bucket_file x name ("draft_data_pack" +:+ (if zipped then ".zip" else "")).

(** [f"{key} {zipped=}"] *)
Definition effective_key (key : string) (zipped : bool) : string :=
  key +:+ " zipped=" +:+ (if zipped then "True" else "False").

Definition load_into (p : loc) (file : string) : M unit := fun w =>
  match pack_load (fs w) file (pack_at p w) with
  | Ok q => (Ok tt, set_packs <[p := q]> w)
  | Raise e => (Raise e, w)
  end.

Definition save_from (p : loc) (file : string) : M unit := fun w =>
  match pack_save file (pack_at p w) (fs w) with
  | Ok f => (Ok tt, set_fs (fun _ => f) w)
  | Raise e => (Raise e, w)
  end.

(** [cache] is a generator function.  A frame is the state of one call:
    not started, suspended at the [yield] with its live locals, or finished. *)
Inductive cache_frame :=
  | CacheStart (self : loc) (name key : string) (zipped apply : bool)
  | CacheSuspended (self : loc) (c : loc) (name : string)
      (cached_resource_pack cached_data_pack key : string) (apply : bool)
  | CacheDone.

Definition Draft_cache (self : loc) (name key : string) (zipped apply : bool) : cache_frame :=
  CacheStart self name key zipped apply.

(** The code from the start of [cache] to the [return] of the cache hit. *)
Definition cache_hit (self : loc) (cached_resource_pack cached_data_pack : string)
    (apply : bool) : M unit :=
  a <- gets (fun w => assets (self_of self w)) ;;
  load_into a cached_resource_pack ;;;
  d <- gets (fun w => data (self_of self w)) ;;
  load_into d cached_data_pack ;;;
  if apply then Draft_apply self else ret tt.

(** The code after the [yield]. *)
Definition cache_store (self : loc) (c : loc) (name : string)
    (cached_resource_pack cached_data_pack key : string) (apply : bool) : M unit :=
  a <- gets (fun w => assets (self_of self w)) ;;
  nonempty <- gets (fun w => pack_bool (pack_at a w)) ;;
  (if nonempty then save_from a cached_resource_pack else ret tt) ;;;
  d <- gets (fun w => data (self_of self w)) ;;
  nonempty <- gets (fun w => pack_bool (pack_at d w)) ;;
  (if nonempty then save_from d cached_data_pack else ret tt) ;;;
  modify (set_bucket_json c name "draft_key" key) ;;;
  if apply then Draft_apply self else ret tt.

(** [next(frame)]: [Some v] is a value yielded, [None] is [StopIteration]. *)
Definition cache_next (frame : cache_frame) : M (option loc * cache_frame) :=
  match frame with
  | CacheStart self name key zipped apply =>
      c <- gets (fun w => ctx (self_of self w)) ;;
      x <- gets (fun w => contexts w !!! c) ;;
      let cached_resource_pack := cached_resource_pack_of x name zipped in
      let cached_data_pack := cached_data_pack_of x name zipped in
      let key := effective_key key zipped in
      if decide (bucket_json x name !! "draft_key" = Some key) then
        cache_hit self cached_resource_pack cached_data_pack apply ;;;
        ret (None, CacheDone)
      else
        ret (Some self,
             CacheSuspended self c name cached_resource_pack cached_data_pack key apply)
  | CacheSuspended self c name cached_resource_pack cached_data_pack key apply =>
      cache_store self c name cached_resource_pack cached_data_pack key apply ;;;
      ret (None, CacheDone)
  | CacheDone => ret (None, CacheDone)
  end.

(** [for draft in frame: body(draft)].  An exception of the body leaves the
    loop; the generator is not resumed. *)
Fixpoint for_in (fuel : nat) (frame : cache_frame) (body : loc -> M unit) : M unit :=
  match fuel with
  | 0 => raise (Unmodelled "loop bound")
  | S n =>
      r <- cache_next frame ;;
      match r with
      | (None, _) => ret tt
      | (Some v, frame') => body v ;;; for_in n frame' body
      end
  end.

End Beet.


Arguments World {_}.
Arguments M {_} _.

(** ** The container collaborator of the spec *)

(** Modelled from the spec: the resource pack and data pack of
    [beet.library], whose [merge], [load], [save] and truth value are not in
    this module.  A pack maps keys to files; [merge] goes artifact by artifact
    and is last-write-wins or structural per artifact kind; [load] puts the
    persisted snapshot into the pack, [save] persists the pack under the path;
    a pack is true when it is not empty. *)

(** Modelled from the spec: how the files of a class merge.  A class
    without a merge of its own is last-write-wins.  Of the structural merges
    the one of a tag is described; the others are left open. *)
Inductive merge_policy :=
  | LastWriteWins
  | TagValues
  | OtherMerge.

Section SpecContainer.

(** The merge of each file class. *)
Variable policy : string -> merge_policy.

(** A tag takes a value it does not list yet. *)
Definition add_value (values : list string) (value : string) : list string :=
  if decide (value ∈ values) then values else values ++ [value].

(** Modelled from the spec: the structural merge of a tag: the tag keeps
    its values, in their order, and takes, one after the other, the values of
    the other tag that it does not list. *)
Definition tag_merge (current new : list string) : list string :=
  foldl add_value current new.

(** Modelled from the spec: the merge of one artifact into the one the
    destination holds under the same key, giving the file the destination
    holds afterwards. *)
Definition merge_file (current new : File) : outcome File :=
  if bool_decide (file_class current = file_class new) then
    match policy (file_class new) with
    | LastWriteWins => Ok new
    | TagValues =>
        Ok (mkFile (file_class current) (tag_merge (file_lines current) (file_lines new)))
    | OtherMerge => Raise (Unmodelled "structural merge of this artifact kind")
    end
  else Ok new.

(** What the destination holds under [key] once [new] is merged into it. *)
Definition merge_entry (dst : gmap string File) (key : string) (new : File) : outcome File :=
  match dst !! key with
  | Some current => merge_file current new
  | None => Ok new
  end.

(** Modelled from the spec: [dst.merge(src)], artifact by artifact. *)
Definition spec_merge (dst src : gmap string File) : outcome (gmap string File) :=
  map_fold
    (fun key new merged =>
       match merged with
       | Ok files =>
           match merge_entry files key new with
           | Ok file => Ok (<[key := file]> files)
           | Raise e => Raise e
           end
       | Raise e => Raise e
       end)
    (Ok dst) src.

(** Modelled from the spec: [p.load(path)]; a path that holds no snapshot
    loads nothing. *)
Definition spec_load (files : gmap string (gmap string File)) (file : string)
    (p : gmap string File) : gmap string File :=
  match files !! file with
  | Some snapshot => snapshot ∪ p
  | None => p
  end.

(** Modelled from the spec: the container collaborator. *)
#[local] Instance spec_container : Container := {|
  pack := gmap string File;
  filesystem := gmap string (gmap string File);
  pack_new := ∅;
  pack_bool p := negb (bool_decide (p = ∅));
  pack_getitem key p := p !! key;
  pack_setitem key f p := Ok (<[key := f]> p);
  pack_merge dst src := spec_merge dst src;
  pack_load files file p := Ok (spec_load files file p);
  pack_save file p files := Ok (<[file := p]> files);
|}.

End SpecContainer.

(** ** A small build *)

(** The classes of the examples: function tags are tags, functions and
    textures have no merge of their own. *)
Definition example_policy (file_class : string) : merge_policy :=
  if decide (file_class = "FunctionTag") then TagValues
  else if decide (file_class = "Function" \/ file_class = "Texture") then LastWriteWins
  else OtherMerge.

Definition example_container : Container := spec_container example_policy.

Definition example_hash (value : hashval) (short : bool) : string :=
  if short then "0123456" else "0123456789abcdef".

Definition example_data_field_map : gmap string string :=
  {[ "Function" := "functions"; "FunctionTag" := "function_tags" ]}.

Definition example_assets_field_map : gmap string string :=
  {[ "Language" := "languages" ]}.

Definition example_render (render_path render_group : string) (file : File)
    (kwargs : list (string * string)) : @M example_container unit :=
  fun w => (Ok tt, w).

Definition greeting : File := mkFile "Function" ["say hello"].

(** Project ["ns"]: the root generator (0), the generator of scope
    [("a", "b")] derived from it (1) and a draft of that generator (2); the
    packs of the context (0, 1) and of the draft (4, 5); one registry. *)
Definition example_generators : gmap loc Generator :=
  {[ 0 := mkGenerator false 0 [] 0 0 1 2 3;
     1 := mkGenerator false 0 [PStr "a"; PStr "b"] 0 0 1 2 3;
     2 := mkGenerator true 0 [PStr "a"; PStr "b"] 0 4 5 0 1 ]}.

Definition example_packs : gmap loc (gmap string File) :=
  {[ 0 := ∅; 1 := ∅; 2 := ∅; 3 := ∅; 4 := ∅; 5 := ∅ ]}.

(** Nothing cached yet. *)
Definition example_world : @World example_container :=
  @mkWorld example_container example_generators
    {[ 0 := mkContext "ns" ∅ ∅ ".beet_cache" 0 ]}
    {[ 0 := ∅ ]} example_packs ∅ [].

(** A previous build stored the data pack of the draft under key ["v1"]. *)
Definition cached_world : @World example_container :=
  @mkWorld example_container example_generators
    {[ 0 := mkContext "ns" ∅
              {[ "mycache" := {[ "draft_key" := "v1 zipped=False" ]} ]}
              ".beet_cache" 0 ]}
    {[ 0 := ∅ ]} example_packs
    {[ ".beet_cache/mycache/draft_data_pack" := {[ "greeting:hello" := greeting ]} ]} [].



(** ** Project and ProjectBuilder *)

(** [src/beet/toolchain/project.py].  The configuration loader, the file
    system and [pathlib] are collaborators of the module and are parameters
    here. *)

(** What the [config] property can raise: its own [ErrorMessage], or what
    [load_config] raised. *)
Inductive project_error :=
  | ErrorMessage (msg : string)
  | LoadError (e : exn).

(** A value of the [autosave] options. *)
Inductive jval :=
  | JBool (b : bool)
  | JNum (n : Z)
  | JStr (s : string).

Section ProjectModel.

(** [ProjectConfig] and [ProjectCache], of [beet.toolchain.config] and
    [beet.toolchain.context]. *)
Variable ProjectConfig : Type.
Variable ProjectCache : Type.

(** [Path(directory, filename)] and [directory / name]; [path.resolve()];
    [path.is_file()]; [locate_config(Path.cwd(), *names)];
    [load_config(path, overrides)]; [config.directory];
    [ProjectCache(cache_directory, generated_directory)]. *)
Variable path_join : string -> string -> string.
Variable resolve : string -> string.
Variable is_file : string -> bool.
Variable locate_config : list string -> list string.
Variable load_config : option string -> list string -> exn + ProjectConfig.
Variable directory_of : ProjectConfig -> string.
Variable new_cache : string -> string -> ProjectCache.

(** The fields of [Project] that the config and the cache use.  Paths are
    strings; an empty string is false. *)
Record Project := mkProject {
  resolved_config : option ProjectConfig;
  config_overrides : option (list string);
  config_directory : option string;
  config_path : option string;
  config_detect : list string;
  resolved_cache : option ProjectCache;
  cache_name : string;
}.

(** [if path:] for an optional path. *)
Definition path_truthy (path : option string) : bool :=
  match path with
  | Some s => negb (bool_decide (s = ""))
  | None => false
  end.

(** [self.config_overrides or []] *)
Definition overrides_of (p : Project) : list string := default [] (config_overrides p).

(** The list [paths] of the [config] property. *)
Definition config_candidates (p : Project) : list string :=
  if path_truthy (config_path p) then [default "" (config_path p)]
  else if path_truthy (config_directory p) then
    filter (fun path => is_file path = true)
      (path_join (default "" (config_directory p)) <$> config_detect p)
  else locate_config (config_detect p).

Definition set_resolved_config (c : option ProjectConfig) (p : Project) : Project :=
  mkProject c (config_overrides p) (config_directory p) (config_path p)
    (config_detect p) (resolved_cache p) (cache_name p).

Definition set_resolved_cache (c : option ProjectCache) (p : Project) : Project :=
  mkProject (resolved_config p) (config_overrides p) (config_directory p) (config_path p)
    (config_detect p) c (cache_name p).

(** [self.resolved_config = load_config(config_path, self.config_overrides or [])] *)
Definition load_resolved (config_path : option string) (p : Project)
    : (project_error + ProjectConfig) * Project :=
  match load_config config_path (overrides_of p) with
  | inr c => (inr c, set_resolved_config (Some c) p)
  | inl e => (inl (LoadError e), p)
  end.

(** The property [Project.config]. *)
Definition Project_config (p : Project) : (project_error + ProjectConfig) * Project :=
  match resolved_config p with
  | Some c => (inr c, p)
  | None =>
      match config_candidates p with
      | first :: _ => load_resolved (Some (resolve first)) p
      | [] =>
          match overrides_of p with
          | _ :: _ => load_resolved None p
          | [] => (inl (ErrorMessage "Couldn't locate config file."), p)
          end
      end
  end.

(** The property [Project.directory]: [Path(self.config.directory)]. *)
Definition Project_directory (p : Project) : (project_error + string) * Project :=
  match Project_config p with
  | (inr c, p') => (inr (directory_of c), p')
  | (inl e, p') => (inl e, p')
  end.

(** The property [Project.cache]; [self.directory] is evaluated for each of
    the two arguments of [ProjectCache]. *)
Definition Project_cache (p : Project) : (project_error + ProjectCache) * Project :=
  match resolved_cache p with
  | Some c => (inr c, p)
  | None =>
      match Project_directory p with
      | (inl e, p1) => (inl e, p1)
      | (inr d1, p1) =>
          match Project_directory p1 with
          | (inl e, p2) => (inl e, p2)
          | (inr d2, p2) =>
              let c := new_cache (path_join d1 (cache_name p2)) (path_join d2 "generated") in
              (inr c, set_resolved_cache (Some c) p2)
          end
      end
  end.

(** [Project.reset] *)
Definition Project_reset (p : Project) : Project :=
  set_resolved_cache None (set_resolved_config None p).

End ProjectModel.

Arguments resolved_config {_ _} _.
Arguments config_overrides {_ _} _.
Arguments config_directory {_ _} _.
Arguments config_path {_ _} _.
Arguments config_detect {_ _} _.
Arguments resolved_cache {_ _} _.
Arguments cache_name {_ _} _.
Arguments mkProject {_ _} _ _ _ _ _ _ _.
Arguments overrides_of {_ _} _.
Arguments config_candidates {_ _} _ _ _ _.
Arguments set_resolved_config {_ _} _ _.
Arguments set_resolved_cache {_ _} _ _.
Arguments load_resolved {_ _} _ _ _.
Arguments Project_config {_ _} _ _ _ _ _ _.
Arguments Project_directory {_ _} _ _ _ _ _ _ _.
Arguments Project_cache {_ _} _ _ _ _ _ _ _ _.
Arguments Project_reset {_ _} _.

(** The statements of [Project.build] before the builder runs, on the
    dictionaries of [config.meta]:
    [autosave = self.config.meta.setdefault("autosave", {})], then
    [autosave["link"] = False] or [autosave.setdefault("link", True)]. *)
Definition build_meta (no_link : bool) (meta : gmap string (gmap string jval))
    : gmap string (gmap string jval) :=
  let autosave := default ∅ (meta !! "autosave") in
  let autosave :=
    if no_link then <["link" := JBool false]> autosave
    else match autosave !! "link" with
         | Some _ => autosave
         | None => <["link" := JBool true]> autosave
         end in
  <["autosave" := autosave]> meta.

(** The default name of a pack in [ProjectBuilder.bootstrap]:
    [ctx.project_id], then ["_" + ctx.project_version] when there is a
    version, then the suffix of the pack. *)
Definition default_pack_name (project_id project_version suffix : string) : string :=
  let default_name := project_id in
  let default_name :=
    if decide (project_version = "") then default_name
    else default_name +:+ ("_" +:+ project_version) in
  default_name +:+ suffix.

(** [pack_suffixes] *)
Definition pack_suffixes : list string := ["_resource_pack"; "_data_pack"].

(** A project directory ["proj"] that holds [beet.yml] and
    [pyproject.toml]; a config is the path it was loaded from. *)
Definition example_join (directory name : string) : string := directory +:+ "/" +:+ name.
Definition example_is_file (path : string) : bool :=
  bool_decide (path = "proj/beet.yml" \/ path = "proj/pyproject.toml").
Definition example_locate (names : list string) : list string := [].
Definition example_load (path : option string) (overrides : list string) : exn + string :=
  inr (default "overrides" path).
Definition example_directory (config : string) : string := "proj".
Definition example_project : @Project string (string * string) :=
  mkProject None None (Some "proj") None
    ["beet.json"; "beet.toml"; "beet.yml"; "beet.yaml"; "pyproject.toml"] None ".beet_cache".
Definition example_empty_project : @Project string (string * string) :=
  mkProject None None (Some "elsewhere") None
    ["beet.json"; "beet.toml"; "beet.yml"; "beet.yaml"; "pyproject.toml"] None ".beet_cache".

(** ** Properties *)

Section Properties.

Context `{Container}.

Variable stable_hash_fn : hashval -> bool -> string.
Variable data_field_map : gmap string string.
Variable assets_field_map : gmap string string.
Variable render_file : string -> string -> File -> list (string * string) -> M unit.

Notation "x <- m ;; k" := (bind m (fun x => k))
  (at level 100, m at next level, right associativity).
Notation "m ;;; k" := (bind m (fun _ => k))
  (at level 100, right associativity).

(** *** Scope extension *)

(** C7: [g[key]] returns a new object whose scope is the scope of [g]
    extended by [key] and whose registry and containers are the references
    [g] holds; [g] itself, and every other object, registry and pack, is as
    before. *)
Theorem getitem_extends_scope (w : World) (self : loc) (key : pyval) (g : Generator) :
  generators w !! self = Some g ->
  exists child w',
    getitem self key w = (Ok child, w') /\
    child <> self /\
    generators w !! child = None /\
    generators w' !! child =
      Some (mkGenerator (is_draft g) (ctx g) (scope g ++ [key]) (registry g)
              (assets g) (data g) (parent_assets g) (parent_data g)) /\
    generators w' !! self = Some g /\
    (forall l, l <> child -> generators w' !! l = generators w !! l) /\
    contexts w' = contexts w /\ registries w' = registries w /\
    packs w' = packs w /\ fs w' = fs w /\ hash_calls w' = hash_calls w.
Proof.
  intros Hg.
  pose proof (is_fresh (dom (generators w))) as Hfresh.
  apply not_elem_of_dom in Hfresh.
  set (l := fresh (dom (generators w))) in *.
  assert (l <> self) as Hne by (intros ->; congruence).
  eexists l, _. split; [reflexivity|].
  unfold self_of. rewrite (lookup_total_correct _ _ _ Hg). simpl.
  repeat split; try done.
  - by rewrite lookup_insert_eq.
  - by rewrite lookup_insert_ne.
  - intros l' Hl'. by rewrite lookup_insert_ne.
Qed.

(** *** Registration *)

(** C8, as the code has it: [__call__] with no positional argument and no
    [render], that is with neither a file nor a template, fails on [args[0]]
    before anything is generated or stored, with the [IndexError] of the empty
    tuple: the module has no exception class of its own and checks nothing.
    The selection of the arguments fails in this case only. *)
Theorem call_without_arguments_fails (w : World) (self : loc) (hash : option hashval)
    (kwargs : list (string * string)) :
  call stable_hash_fn data_field_map assets_field_map render_file
       self [] None hash kwargs w = (Raise IndexError, w) /\
  (forall args render e,
      call_arguments args render = Raise e <-> args = [] /\ render = None /\ e = IndexError).
Proof.
  split; [reflexivity|].
  intros args render e. split.
  - destruct render as [r|]; [discriminate|].
    destruct args as [|x [|y [|z args]]]; simpl; try discriminate.
    intros Hraise. by inversion Hraise.
  - by intros (-> & -> & ->).
Qed.

(** *** push *)

(** C10: when [with self.push(): body] is left, the root generator has the
    scope, assets, data, parent_assets and parent_data it had before, whatever
    the body did to the store and whether it returned or raised; the result of
    the statement is the result of the body. *)
Theorem push_restores_root {A} (w : World) (self : loc) (body : M A) :
  let root := generate (ctx_of self w) in
  let entered := snd (push_enter self w) in
  pushed_of (self_of root (snd (with_push self body w))) = pushed_of (self_of root w) /\
  fst (with_push self body w) = fst (body entered) /\
  pushed_of (self_of root entered) = pushed_of (self_of self w).
Proof.
  simpl. unfold with_push, push_enter, push_exit, modify, assign_root. simpl.
  destruct (body _) as [r w2] eqn:Hbody. simpl.
  unfold self_of at 1. simpl.
  rewrite !lookup_total_insert_eq.
  split; [reflexivity|]. split; [by destruct r|].
  unfold self_of at 1. simpl. by rewrite lookup_total_insert_eq.
Qed.

(** *** The registry *)

Lemma get_increment_step (w : World) (self : loc) (key : list pyval) :
  let r := registry (self_of self w) in
  let k := increment_key (ctx_of self w) (self_of self w) key in
  let count := default 0%Z (registry_at r w !! k) in
  get_increment self key w =
    (Ok count, set_registries <[r := <[k := (count + 1)%Z]> (registry_at r w)]> w).
Proof. reflexivity. Qed.

Lemma registry_at_set_registries (w : World) (r r' : loc) (m : gmap (list pyval) Z) :
  registry_at r' (set_registries <[r := m]> w) =
    if decide (r = r') then m else registry_at r' w.
Proof.
  unfold registry_at. simpl. rewrite lookup_insert. by case_decide.
Qed.

Lemma get_increments_from (k : loc * list pyval) (w0 : World)
    (calls : list (loc * list pyval)) :
  forall (w : World) (n0 : Z),
    generators w = generators w0 -> contexts w = contexts w0 ->
    default 0%Z (registry_at k.1 w !! k.2) = n0 ->
    exists ns w',
      get_increments calls w = (Ok ns, w') /\
      length ns = length calls /\
      returned_on w0 k calls ns =
        (fun i => (n0 + Z.of_nat i)%Z) <$> seq 0 (length (returned_on w0 k calls ns)) /\
      default 0%Z (registry_at k.1 w' !! k.2) =
        (n0 + Z.of_nat (length (returned_on w0 k calls ns)))%Z.
Proof.
  induction calls as [|[self key] calls IH]; intros w n0 Hg Hc Hn0.
  - exists [], w. simpl. repeat split; try done. lia.
  - simpl. unfold bind. rewrite get_increment_step. simpl.
    set (r := registry (self_of self w)).
    set (kk := increment_key (ctx_of self w) (self_of self w) key).
    set (count := default 0%Z (registry_at r w !! kk)).
    set (w1 := set_registries _ w).
    assert (counter_of w0 (self, key) = (r, kk)) as Hcounter.
    { unfold counter_of, r, kk, ctx_of, self_of. simpl. by rewrite Hg, Hc. }
    destruct (decide ((r, kk) = k)) as [<-|Hne].
    + destruct (IH w1 (n0 + 1)%Z) as (ns & w' & Hrun & Hlen & Hret & Hend); [done|done| |].
      { subst w1. simpl. rewrite registry_at_set_registries.
        rewrite decide_True by done. rewrite lookup_insert_eq. simpl in *.
        subst count. simpl in Hn0. by rewrite Hn0. }
      exists (count :: ns), w'. rewrite Hrun. simpl.
      split; [done|]. split; [by rewrite Hlen|].
      rewrite Hcounter, decide_True by done. simpl. split.
      * rewrite Hret at 1. f_equal.
        -- subst count. simpl in Hn0. lia.
        -- rewrite <- fmap_S_seq, <- list_fmap_compose.
           apply list_fmap_ext. intros _ i _. simpl. lia.
      * simpl in Hend. rewrite Hend. lia.
    + destruct (IH w1 n0) as (ns & w' & Hrun & Hlen & Hret & Hend); [done|done| |].
      { subst w1. rewrite registry_at_set_registries.
        destruct (decide (r = k.1)) as [Hr|Hr]; [|done].
        rewrite lookup_insert_ne; [by rewrite Hr|].
        intros Hk. apply Hne. destruct k. simpl in *. by subst. }
      exists (count :: ns), w'. rewrite Hrun. simpl.
      split; [done|]. split; [by rewrite Hlen|].
      by rewrite Hcounter, decide_False by done.
Qed.

Lemma returned_on_all (w : World) (k : loc * list pyval)
    (calls : list (loc * list pyval)) (ns : list Z) :
  length ns = length calls ->
  Forall (fun call => counter_of w call = k) calls ->
  returned_on w k calls ns = ns.
Proof.
  revert ns. induction calls as [|call calls IH]; intros [|n ns] Hlen Hall; try done.
  simpl. inversion Hall; subst. rewrite decide_True by done.
  f_equal. apply IH; [by inversion Hlen|done].
Qed.

(** C4: on a counter that has not been used, the calls of a run that read
    it are answered 0, 1, 2, ... in call order, also when calls on other
    counters come in between; a run that only reads this counter returns
    exactly 0, 1, ..., n-1 and leaves it at n.  The counter is the registry
    together with the composite key, so the receivers share the registry, the
    project id and the scope. *)
Theorem get_increment_counts_from_zero (w : World) (k : loc * list pyval)
    (calls : list (loc * list pyval)) :
  registry_at k.1 w !! k.2 = None ->
  exists ns w',
    get_increments calls w = (Ok ns, w') /\
    length ns = length calls /\
    returned_on w k calls ns = Z.of_nat <$> seq 0 (length (returned_on w k calls ns)) /\
    (Forall (fun call => counter_of w call = k) calls ->
     ns = Z.of_nat <$> seq 0 (length calls) /\
     default 0%Z (registry_at k.1 w' !! k.2) = Z.of_nat (length calls)).
Proof.
  intros Hfresh.
  destruct (get_increments_from k w calls w 0%Z)
    as (ns & w' & Hrun & Hlen & Hret & Hend); [done|done|by rewrite Hfresh|].
  assert (returned_on w k calls ns =
          Z.of_nat <$> seq 0 (length (returned_on w k calls ns))) as Hseq.
  { rewrite Hret at 1. apply list_fmap_ext. intros _ i _. simpl. lia. }
  exists ns, w'. split; [done|]. split; [done|]. split; [done|].
  intros Hall.
  rewrite (returned_on_all w k calls ns Hlen Hall) in Hseq, Hend.
  rewrite Hlen in Hseq, Hend. split; [done|]. rewrite Hend. lia.
Qed.

(** *** Lazy placeholders *)

Section Preservation.

Variable P : World -> World -> Prop.
Hypothesis P_refl : forall w, P w w.
Hypothesis P_trans : forall w1 w2 w3, P w1 w2 -> P w2 w3 -> P w1 w3.

Lemma preserves_ret {A} (a : A) : preserves P (ret a).
Proof. intros w. apply P_refl. Qed.

Lemma preserves_raise {A} (e : exn) : preserves P (raise (A := A) e).
Proof. intros w. apply P_refl. Qed.

Lemma preserves_gets {A} (f : World -> A) : preserves P (gets f).
Proof. intros w. apply P_refl. Qed.

Lemma preserves_bind {A B} (m : M A) (k : A -> M B) :
  preserves P m -> (forall a, preserves P (k a)) -> preserves P (bind m k).
Proof.
  intros Hm Hk w. unfold bind. specialize (Hm w).
  destruct (m w) as [[a|e] w1]; simpl in *; [|done].
  eapply P_trans; [exact Hm|apply Hk].
Qed.

Lemma render_field_preserves (v : env_value) (format_spec : string) :
  (forall func, v = LazyFormat func -> preserves P func) ->
  preserves P (render_field v format_spec).
Proof.
  intros Hv. unfold render_field. apply preserves_bind.
  - destruct v; [apply preserves_ret|by apply Hv].
  - intros s. case_decide; [apply preserves_ret|apply preserves_raise].
Qed.

Lemma output_markup_preserves (expand : string -> M string) (env : gmap string env_value)
    (field_name : string) (conversion : option ascii) (format_spec : string) :
  (needs_expanding format_spec = true -> preserves P (expand format_spec)) ->
  (forall func, env !! (field_name_split field_name).1 = Some (LazyFormat func) ->
                preserves P func) ->
  preserves P (output_markup expand env field_name conversion format_spec).
Proof.
  intros Hexpand Henv. unfold output_markup.
  destruct (field_name_split field_name) as [first more]. simpl in Henv.
  destruct (positional first); [apply preserves_raise|].
  destruct (env !! first) as [v|] eqn:Hv; [|apply preserves_raise].
  case_decide; [|apply preserves_raise].
  destruct conversion as [c|]; [case_decide; apply preserves_raise|].
  apply preserves_bind.
  - destruct (needs_expanding format_spec); [by apply Hexpand|apply preserves_ret].
  - intros spec. apply render_field_preserves. intros func ->. by apply Henv.
Qed.

Lemma render_tokens_preserves (expand : string -> M string) (env : gmap string env_value)
    (toks : list token) :
  (forall field_name conversion format_spec,
      TField field_name conversion format_spec ∈ toks ->
      (needs_expanding format_spec = true -> preserves P (expand format_spec)) /\
      (forall func, env !! (field_name_split field_name).1 = Some (LazyFormat func) ->
                    preserves P func)) ->
  preserves P (render_tokens expand env toks).
Proof.
  induction toks as [|[text|field_name conversion format_spec] toks IH]; intros Htoks.
  - apply preserves_ret.
  - simpl. apply preserves_bind.
    + apply IH. intros f c sp Hin. apply (Htoks f c sp). by right.
    + intros tail. apply preserves_ret.
  - simpl. apply preserves_bind.
    + destruct (Htoks field_name conversion format_spec) as [? ?]; [by left|].
      by apply output_markup_preserves.
    + intros s. apply preserves_bind.
      * apply IH. intros f c sp Hin. apply (Htoks f c sp). by right.
      * intros tail. apply preserves_ret.
Qed.

Lemma build_string_preserves (env : gmap string env_value) (recursion_depth : nat) :
  forall input : string,
    (forall name func, name ∈ fields_at recursion_depth input ->
                       env !! name = Some (LazyFormat func) -> preserves P func) ->
    preserves P (build_string env recursion_depth input).
Proof.
  induction recursion_depth as [|d IH]; intros input Henv.
  - apply preserves_raise.
  - simpl in *. destruct (tokenize input) as [toks err]. simpl in Henv.
    apply preserves_bind.
    + apply render_tokens_preserves. intros field_name conversion format_spec Hin.
      split.
      * intros Hnested. apply IH. intros name func Hname Hfunc.
        apply (Henv name func); [|done].
        apply list_elem_of_In, in_flat_map.
        exists (TField field_name conversion format_spec).
        split; [by apply list_elem_of_In|].
        right. rewrite Hnested. by apply list_elem_of_In.
      * intros func Hfunc. apply (Henv (field_name_split field_name).1 func); [|done].
        apply list_elem_of_In, in_flat_map.
        exists (TField field_name conversion format_spec).
        split; [by apply list_elem_of_In|]. by left.
    + intros out. destruct err; [apply preserves_raise|apply preserves_ret].
Qed.

End Preservation.

Lemma format_env_lazy (w : World) (self : loc) (fmt : string) (hash : option hashval)
    (name : string) (func : M string) :
  format_env stable_hash_fn self fmt hash w !! name = Some (LazyFormat func) ->
  (name = "incr" /\
   func = (n <- get_increment self [PStr fmt] ;; ret (str_of_int n))) \/
  (name = "scope" /\ func = get_prefix self ".") \/
  (name = "path" /\ func = get_prefix self "/") \/
  (exists value, hash = Some value /\
     ((name = "hash" /\ func = stable_hash stable_hash_fn value false) \/
      (name = "short_hash" /\ func = stable_hash stable_hash_fn value true))).
Proof.
  unfold format_env. intros Hlookup.
  assert (forall env : gmap string env_value,
            env = <["incr" := LazyFormat (n <- get_increment self [PStr fmt] ;; ret (str_of_int n))]>
                  (<["scope" := LazyFormat (get_prefix self ".")]>
                  (<["path" := LazyFormat (get_prefix self "/")]>
                  (<["namespace" :=
                       Eager (default (project_id (ctx_of self w))
                                (meta (ctx_of self w) !! "generate_namespace"))]> ∅))) ->
            env !! name = Some (LazyFormat func) ->
            (name = "incr" /\
             func = (n <- get_increment self [PStr fmt] ;; ret (str_of_int n))) \/
            (name = "scope" /\ func = get_prefix self ".") \/
            (name = "path" /\ func = get_prefix self "/")) as Hbase.
  { intros env -> Henv.
    apply lookup_insert_Some in Henv as [[<- Heq]|[_ Henv]]; [left; by inversion Heq|].
    apply lookup_insert_Some in Henv as [[<- Heq]|[_ Henv]];
      [right; left; by inversion Heq|].
    apply lookup_insert_Some in Henv as [[<- Heq]|[_ Henv]];
      [right; right; by inversion Heq|].
    apply lookup_insert_Some in Henv as [[<- Heq]|[_ Henv]]; [by inversion Heq|].
    by rewrite lookup_empty in Henv. }
  destruct hash as [value|].
  - apply lookup_insert_Some in Hlookup as [[<- Heq]|[_ Hlookup]].
    { right; right; right. exists value. split; [done|]. right. by inversion Heq. }
    apply lookup_insert_Some in Hlookup as [[<- Heq]|[_ Hlookup]].
    { right; right; right. exists value. split; [done|]. left. by inversion Heq. }
    destruct (Hbase _ eq_refl Hlookup) as [?|[?|?]]; auto.
  - destruct (Hbase _ eq_refl Hlookup) as [?|[?|?]]; auto.
Qed.

Lemma format_unfold (w : World) (self : loc) (fmt : string) (hash : option hashval) :
  format stable_hash_fn self fmt hash w =
    build_string (format_env stable_hash_fn self fmt hash w) 2 fmt w.
Proof. reflexivity. Qed.

(** C5: [format] evaluates no lazy placeholder that the template does not
    name.  Without an [incr] field the registries are as before; without a
    [hash] and a [short_hash] field [stable_hash] is not called. *)
Theorem format_skips_absent_placeholders (w : World) (self : loc) (fmt : string)
    (hash : option hashval) :
  ("incr" ∉ template_fields fmt ->
   registries (format stable_hash_fn self fmt hash w).2 = registries w) /\
  ("hash" ∉ template_fields fmt -> "short_hash" ∉ template_fields fmt ->
   hash_calls (format stable_hash_fn self fmt hash w).2 = hash_calls w).
Proof.
  rewrite format_unfold. split.
  - intros Hincr.
    apply (build_string_preserves (fun w w' => registries w' = registries w));
      [done|congruence|].
    intros name func Hname Henv.
    apply format_env_lazy in Henv
      as [[-> _]|[[_ ->]|[[_ ->]|(value & _ & [[_ ->]|[_ ->]])]]]; done.
  - intros Hhash Hshort.
    apply (build_string_preserves (fun w w' => hash_calls w' = hash_calls w));
      [done|congruence|].
    intros name func Hname Henv.
    apply format_env_lazy in Henv
      as [[_ ->]|[[_ ->]|[[_ ->]|(value & _ & [[-> _]|[-> _]])]]]; done.
Qed.

(** *** Paths *)

Lemma append_empty_r (s : string) : s +:+ "" = s.
Proof.
  induction s as [|a s IH]; [done|].
  change (String a (s +:+ "") = String a s). by rewrite IH.
Qed.

Lemma tokenize_default_path :
  tokenize ("{namespace}:{path}" +:+ path_default_fmt) =
    ([TLiteral ""; TField "namespace" None ""; TLiteral ":"; TField "path" None "";
      TLiteral "generated_"; TField "incr" None ""; TLiteral ""], None).
Proof. vm_compute. reflexivity. Qed.

Lemma output_markup_plain (expand : string -> M string) (env : gmap string env_value)
    (name : string) (v : env_value) :
  field_name_split name = (name, "") -> positional name = false ->
  env !! name = Some v ->
  output_markup expand env name None "" = render_field v "".
Proof.
  intros Hsplit Hpos Hv. unfold output_markup. rewrite Hsplit, Hpos, Hv. reflexivity.
Qed.

Lemma format_env_namespace (w : World) (self : loc) (fmt : string) :
  format_env stable_hash_fn self fmt None w !! "namespace" =
    Some (Eager (default (project_id (ctx_of self w))
                   (meta (ctx_of self w) !! "generate_namespace"))).
Proof. unfold format_env. rewrite !lookup_insert_ne by done. apply lookup_insert_eq. Qed.

Lemma format_env_path (w : World) (self : loc) (fmt : string) :
  format_env stable_hash_fn self fmt None w !! "path" =
    Some (LazyFormat (get_prefix self "/")).
Proof. unfold format_env. rewrite !lookup_insert_ne by done. apply lookup_insert_eq. Qed.

Lemma format_env_incr (w : World) (self : loc) (fmt : string) :
  format_env stable_hash_fn self fmt None w !! "incr" =
    Some (LazyFormat (n <- get_increment self [PStr fmt] ;; ret (str_of_int n))).
Proof. unfold format_env. apply lookup_insert_eq. Qed.

(** The default path template in scope [("a", "b")] with namespace ["ns"]:
    the counter of the template is read and incremented. *)
Lemma path_default_step (w : World) (self : loc) (n : Z) :
  let g := self_of self w in
  let c := ctx_of self w in
  let k := [PStr (project_id c); PStr "a"; PStr "b";
            PStr ("{namespace}:{path}" +:+ path_default_fmt)] in
  scope g = [PStr "a"; PStr "b"] ->
  default (project_id c) (meta c !! "generate_namespace") = "ns" ->
  meta c !! "generate_path" = None ->
  meta c !! "generate_prefix" = None ->
  default 0%Z (registry_at (registry g) w !! k) = n ->
  path stable_hash_fn self path_default_fmt None w =
    (Ok ("ns:a/b/generated_" +:+ str_of_int n),
     set_registries <[registry g := <[k := (n + 1)%Z]> (registry_at (registry g) w)]> w).
Proof.
  intros g c k Hscope Hns Hpath Hprefix Hn.
  unfold path, meta_get. unfold bind at 1. unfold gets at 1.
  fold c. rewrite Hpath. cbn [default].
  rewrite format_unfold. cbn [build_string]. rewrite tokenize_default_path.
  cbn [render_tokens].
  rewrite (output_markup_plain _ _ "namespace" _ eq_refl eq_refl
             (format_env_namespace w self _)).
  rewrite (output_markup_plain _ _ "path" _ eq_refl eq_refl (format_env_path w self _)).
  rewrite (output_markup_plain _ _ "incr" _ eq_refl eq_refl (format_env_incr w self _)).
  fold c. rewrite Hns.
  assert (get_prefix_of c g "/" = "a/b/") as Hprefix_value.
  { unfold get_prefix_of. rewrite Hprefix, Hscope. reflexivity. }
  cbv [bind render_field ret get_prefix gets get_increment].
  destruct (decide ("" = "")) as [_|?]; [|done].
  fold g c. rewrite Hprefix_value. cbn beta iota. fold g c.
  unfold increment_key. rewrite Hscope. cbn [app]. fold k. rewrite Hn.
  cbn [String.append]. by rewrite !append_empty_r.
Qed.

(** C6: in scope [("a", "b")], with namespace ["ns"], no [generate_path]
    and no [generate_prefix] in [meta], and a fresh registry, the first
    [path()] is ["ns:a/b/generated_0"] and the second one, on the same
    registry, is ["ns:a/b/generated_1"]. *)
Theorem path_default_twice (w : World) (self : loc) :
  scope (self_of self w) = [PStr "a"; PStr "b"] ->
  default (project_id (ctx_of self w))
    (meta (ctx_of self w) !! "generate_namespace") = "ns" ->
  meta (ctx_of self w) !! "generate_path" = None ->
  meta (ctx_of self w) !! "generate_prefix" = None ->
  registry_at (registry (self_of self w)) w = ∅ ->
  exists w1 w2,
    path stable_hash_fn self path_default_fmt None w = (Ok "ns:a/b/generated_0", w1) /\
    path stable_hash_fn self path_default_fmt None w1 = (Ok "ns:a/b/generated_1", w2).
Proof.
  intros Hscope Hns Hpath Hprefix Hfresh.
  pose proof (path_default_step w self 0 Hscope Hns Hpath Hprefix) as Hfirst.
  rewrite Hfresh, lookup_empty in Hfirst. specialize (Hfirst eq_refl).
  eexists _, _. split; [exact Hfirst|].
  match goal with |- path _ _ _ _ ?w1 = _ => set (w1' := w1) end.
  pose proof (path_default_step w1' self 1 Hscope Hns Hpath Hprefix) as Hsecond.
  apply Hsecond. subst w1'. rewrite registry_at_set_registries, decide_True by done.
  by rewrite lookup_insert_eq.
Qed.

(** *** The draft cache *)

Lemma cache_next_hit (w : World) (self : loc) (name key : string) (zipped apply : bool) :
  let x := ctx_of self w in
  bucket_json x name !! "draft_key" = Some (effective_key key zipped) ->
  cache_next (Draft_cache self name key zipped apply) w =
    (cache_hit self (cached_resource_pack_of x name zipped)
       (cached_data_pack_of x name zipped) apply ;;; ret (None, CacheDone)) w.
Proof.
  intros x Hkey. unfold Draft_cache, cache_next.
  unfold bind at 1. unfold gets at 1. unfold bind at 1. unfold gets at 1.
  fold (ctx_of self w). fold x. by rewrite decide_True by done.
Qed.

Lemma cache_next_miss (w : World) (self : loc) (name key : string) (zipped apply : bool) :
  let x := ctx_of self w in
  bucket_json x name !! "draft_key" <> Some (effective_key key zipped) ->
  cache_next (Draft_cache self name key zipped apply) w =
    (Ok (Some self,
         CacheSuspended self (ctx (self_of self w)) name
           (cached_resource_pack_of x name zipped) (cached_data_pack_of x name zipped)
           (effective_key key zipped) apply), w).
Proof.
  intros x Hkey. unfold Draft_cache, cache_next.
  unfold bind at 1. unfold gets at 1. unfold bind at 1. unfold gets at 1.
  fold (ctx_of self w). fold x. by rewrite decide_False by done.
Qed.

(** A step of the generator that ends in [ret (None, CacheDone)] does not
    yield. *)
Lemma then_done_never_yields (m : M unit) (w : World) (v : loc) (frame : cache_frame)
    (w' : World) :
  (m ;;; ret (None, CacheDone)) w <> (Ok (Some v, frame), w').
Proof.
  unfold bind, ret. destruct (m w) as [[[]|e] w1]; congruence.
Qed.

Lemma for_in_then_done (m : M unit) (n : nat) (frame : cache_frame) (body : loc -> M unit)
    (w : World) :
  cache_next frame w = (m ;;; ret (None, CacheDone)) w ->
  for_in (S n) frame body w = m w.
Proof.
  intros Hnext. simpl. unfold bind at 1. rewrite Hnext. unfold bind, ret.
  by destruct (m w) as [[[]|e] w1].
Qed.

(** C1: when the stored [draft_key] is the effective key, the generator
    returns without yielding, so the body of the loop is not run; the loop
    is the two loads into the assets and the data of the draft, followed by
    [apply()] exactly when [apply] is set. *)
Theorem cache_hit_skips_body (w : World) (self : loc) (name key : string)
    (zipped apply : bool) :
  let x := ctx_of self w in
  let a := assets (self_of self w) in
  let d := data (self_of self w) in
  let rp := cached_resource_pack_of x name zipped in
  let dp := cached_data_pack_of x name zipped in
  bucket_json x name !! "draft_key" = Some (effective_key key zipped) ->
  (forall v frame w',
      cache_next (Draft_cache self name key zipped apply) w <> (Ok (Some v, frame), w')) /\
  (forall n body,
      for_in (S n) (Draft_cache self name key zipped apply) body w =
        (load_into a rp ;;; load_into d dp ;;;
         if apply then Draft_apply self else ret tt) w) /\
  (forall pa pd,
      pack_load (fs w) rp (pack_at a w) = Ok pa ->
      pack_load (fs w) dp (pack_at d (set_packs <[a := pa]> w)) = Ok pd ->
      let loaded := set_packs <[d := pd]> (set_packs <[a := pa]> w) in
      forall n body,
        for_in (S n) (Draft_cache self name key zipped apply) body w =
          if apply then Draft_apply self loaded else (Ok tt, loaded)).
Proof.
  intros x a d rp dp Hkey.
  pose proof (cache_next_hit w self name key zipped apply Hkey) as Hnext.
  assert (forall n body,
             for_in (S n) (Draft_cache self name key zipped apply) body w =
               (load_into a rp ;;; load_into d dp ;;;
                if apply then Draft_apply self else ret tt) w) as Hloop.
  { intros n body. rewrite (for_in_then_done _ n _ body w Hnext).
    unfold cache_hit. cbv [bind gets]. fold a x rp dp.
    destruct (load_into a rp w) as [[[]|e] w1] eqn:Hload; [|done].
    assert (generators w1 = generators w) as Hgen.
    { unfold load_into in Hload. destruct (pack_load _ _ _); by inversion Hload. }
    unfold self_of. rewrite Hgen. reflexivity. }
  split; [|split].
  - intros v frame w'. rewrite Hnext. apply then_done_never_yields.
  - exact Hloop.
  - intros pa pd Hpa Hpd loaded n body. rewrite Hloop.
    unfold bind, load_into. rewrite Hpa. fold (set_packs <[a := pa]> w).
    cbn [fs set_packs]. rewrite Hpd. by destruct apply.
Qed.

Lemma same_but_packs_refl (w : World) : same_but_packs w w.
Proof. by repeat split. Qed.

Lemma same_but_packs_trans (w1 w2 w3 : World) :
  same_but_packs w1 w2 -> same_but_packs w2 w3 -> same_but_packs w1 w3.
Proof. unfold same_but_packs. intros (?&?&?&?&?) (?&?&?&?&?). repeat split; congruence. Qed.

Lemma merge_into_frame (dst src : loc) : preserves same_but_packs (merge_into dst src).
Proof.
  intros w. unfold merge_into. destruct (pack_merge _ _); by repeat split.
Qed.

Lemma Draft_apply_frame (self : loc) : preserves same_but_packs (Draft_apply self).
Proof.
  unfold Draft_apply.
  apply (preserves_bind _ same_but_packs_trans);
    [apply (preserves_gets _ same_but_packs_refl)|intros g].
  apply (preserves_bind _ same_but_packs_trans); [|intros _].
  { case_decide; [apply (preserves_ret _ same_but_packs_refl)|apply merge_into_frame]. }
  apply (preserves_bind _ same_but_packs_trans);
    [apply (preserves_gets _ same_but_packs_refl)|intros g'].
  case_decide; [apply (preserves_ret _ same_but_packs_refl)|apply merge_into_frame].
Qed.

(** The code after the [yield], when it succeeds: each container that is
    not empty was saved under its path, the effective key is the stored
    [draft_key], and [apply()] ran exactly when [apply] is set. *)
Lemma cache_store_ok (w1 w2 : World) (self c : loc) (name rp dp ek : string) (apply : bool) :
  cache_store self c name rp dp ek apply w1 = (Ok tt, w2) ->
  let a := assets (self_of self w1) in
  let d := data (self_of self w1) in
  exists f1 f2,
    (if pack_bool (pack_at a w1) then pack_save rp (pack_at a w1) (fs w1) = Ok f1
     else f1 = fs w1) /\
    (if pack_bool (pack_at d w1) then pack_save dp (pack_at d w1) f1 = Ok f2
     else f2 = f1) /\
    let stored := set_bucket_json c name "draft_key" ek (set_fs (fun _ => f2) w1) in
    (if apply then Draft_apply self stored else (Ok tt, stored)) = (Ok tt, w2) /\
    fs w2 = f2 /\
    bucket_json (contexts w2 !!! c) name !! "draft_key" = Some ek.
Proof.
  intros Hstore a d. unfold cache_store in Hstore. cbv [bind gets modify] in Hstore.
  fold a in Hstore.
  assert (forall f, set_fs (fun _ => f) (set_fs (fun _ => fs w1) w1) = set_fs (fun _ => f) w1)
    as Hfs by done.
  assert (set_fs (fun _ => fs w1) w1 = w1) as Hid by (by destruct w1).
  set (saved1 := if pack_bool (pack_at a w1) then save_from a rp w1 else ret tt w1).
  assert ((if pack_bool (pack_at a w1) then save_from a rp else ret tt) w1 = saved1)
    as Hsaved1 by (unfold saved1; destruct (pack_bool (pack_at a w1)); reflexivity).
  rewrite Hsaved1 in Hstore.
  destruct saved1 as [[[]|e] wa] eqn:Ha; [|done].
  assert (exists f1, wa = set_fs (fun _ => f1) w1 /\
            if pack_bool (pack_at a w1) then pack_save rp (pack_at a w1) (fs w1) = Ok f1
            else f1 = fs w1) as (f1 & -> & Hf1).
  { subst saved1. destruct (pack_bool (pack_at a w1)).
    - unfold save_from in Ha. destruct (pack_save rp _ _) as [f|]; [|done].
      exists f. by inversion Ha.
    - exists (fs w1). assert (wa = w1) as -> by (unfold ret in Ha; congruence).
      by rewrite Hid. }
  change (self_of self (set_fs (fun _ => f1) w1)) with (self_of self w1) in Hstore.
  fold d in Hstore.
  change (pack_at d (set_fs (fun _ => f1) w1)) with (pack_at d w1) in Hstore.
  set (w1' := set_fs (fun _ => f1) w1) in *.
  set (saved2 := if pack_bool (pack_at d w1) then save_from d dp w1' else ret tt w1').
  assert ((if pack_bool (pack_at d w1) then save_from d dp else ret tt) w1' = saved2)
    as Hsaved2 by (unfold saved2; destruct (pack_bool (pack_at d w1)); reflexivity).
  rewrite Hsaved2 in Hstore.
  destruct saved2 as [[[]|e] wd] eqn:Hd; [|done].
  assert (exists f2, wd = set_fs (fun _ => f2) w1 /\
            if pack_bool (pack_at d w1) then pack_save dp (pack_at d w1) f1 = Ok f2
            else f2 = f1) as (f2 & -> & Hf2).
  { subst saved2. destruct (pack_bool (pack_at d w1)).
    - unfold save_from in Hd.
      change (pack_at d w1') with (pack_at d w1) in Hd.
      change (fs w1') with f1 in Hd.
      destruct (pack_save dp _ _) as [f|]; [|done].
      exists f. by inversion Hd.
    - exists f1. assert (wd = w1') as -> by (unfold ret in Hd; congruence).
      done. }
  exists f1, f2. split; [done|]. split; [done|].
  set (stored := set_bucket_json c name "draft_key" ek (set_fs (fun _ => f2) w1)) in *.
  assert ((if apply then Draft_apply self stored else (Ok tt, stored)) = (Ok tt, w2))
    as Happly by (by destruct apply).
  split; [done|].
  assert (same_but_packs stored w2) as (_ & Hctx & _ & Hfs2 & _).
  { destruct apply.
    - pose proof (Draft_apply_frame self stored) as Hframe.
      by rewrite Happly in Hframe.
    - inversion Happly. apply same_but_packs_refl. }
  split; [by rewrite Hfs2|].
  rewrite Hctx. subst stored. unfold set_bucket_json. cbn [contexts set_contexts].
  rewrite lookup_total_insert_eq. unfold bucket_json at 1. simpl.
  rewrite lookup_insert_eq. simpl. by rewrite lookup_insert_eq.
Qed.


(** C9: a cache miss that is suspended at its [yield] and not resumed has
    saved no snapshot and stored no [draft_key]: the store at the suspension
    is the store of the call, and when the body raises, the loop ends in the
    store the body left, with the exception of the body. *)
Theorem cache_abandoned_persists_nothing (w : World) (self : loc) (name key : string)
    (zipped apply : bool) :
  let x := ctx_of self w in
  bucket_json x name !! "draft_key" <> Some (effective_key key zipped) ->
  (exists frame,
      cache_next (Draft_cache self name key zipped apply) w = (Ok (Some self, frame), w)) /\
  (forall n body e w1,
      body self w = (Raise e, w1) ->
      for_in (S n) (Draft_cache self name key zipped apply) body w = (Raise e, w1)).
Proof.
  intros x Hkey.
  pose proof (cache_next_miss w self name key zipped apply Hkey) as Hnext.
  split; [by eexists|].
  intros n body e w1 Hbody. cbn [for_in]. unfold bind at 1. rewrite Hnext.
  unfold bind. by rewrite Hbody.
Qed.

End Properties.

(** *** apply() on the packs of the spec *)

Section SpecContainerProperties.

Variable policy : string -> merge_policy.

Local Abbreviation SpecWorld := (@World (spec_container policy)).

Notation "x <- m ;; k" := (bind m (fun x => k))
  (at level 100, m at next level, right associativity).
Notation "m ;;; k" := (bind m (fun _ => k))
  (at level 100, right associativity).


















End SpecContainerProperties.

(** *** The properties on the small build *)

Lemma getitem_extends_scope_witness :
  generators example_world !! 1 =
    Some (mkGenerator false 0 [PStr "a"; PStr "b"] 0 0 1 2 3) /\
  exists child w',
    getitem 1 (PType "Function") example_world = (Ok child, w') /\
    generators w' !! child =
      Some (mkGenerator false 0 [PStr "a"; PStr "b"; PType "Function"] 0 0 1 2 3) /\
    generators w' !! 1 = Some (mkGenerator false 0 [PStr "a"; PStr "b"] 0 0 1 2 3).
Proof.
  split; [reflexivity|].
  destruct (getitem_extends_scope example_world 1 (PType "Function")
              (mkGenerator false 0 [PStr "a"; PStr "b"] 0 0 1 2 3) eq_refl)
    as (child & w' & Hrun & _ & _ & Hchild & Hself & _).
  exists child, w'. repeat split; assumption.
Defined.

Lemma get_increment_counts_from_zero_witness :
  let k := (0, [PStr "ns"; PStr "a"; PStr "b"; PStr "x"]) in
  let calls := [(1, [PStr "x"]); (1, [PStr "y"]); (2, [PStr "x"])] in
  registry_at k.1 example_world !! k.2 = None /\
  exists ns w',
    get_increments calls example_world = (Ok ns, w') /\
    returned_on example_world k calls ns =
      Z.of_nat <$> seq 0 (length (returned_on example_world k calls ns)).
Proof.
  intros k calls. split; [reflexivity|].
  destruct (get_increment_counts_from_zero example_world k calls eq_refl)
    as (ns & w' & Hrun & _ & Hseq & _).
  exists ns, w'. split; assumption.
Defined.

Lemma format_skips_absent_placeholders_witness :
  ("incr" ∉ template_fields "{namespace}:{path}{hash}") /\
  ("hash" ∉ template_fields "{namespace}.{scope}{incr}") /\
  ("short_hash" ∉ template_fields "{namespace}.{scope}{incr}") /\
  registries (format example_hash 1 "{namespace}:{path}{hash}" (Some (HValue "v"))
                example_world).2 = registries example_world /\
  hash_calls (format example_hash 1 "{namespace}.{scope}{incr}" (Some (HValue "v"))
                example_world).2 = hash_calls example_world.
Proof.
  assert ("incr" ∉ template_fields "{namespace}:{path}{hash}") as Hincr
    by (apply (bool_decide_unpack _); vm_compute; exact I).
  assert ("hash" ∉ template_fields "{namespace}.{scope}{incr}") as Hhash
    by (apply (bool_decide_unpack _); vm_compute; exact I).
  assert ("short_hash" ∉ template_fields "{namespace}.{scope}{incr}") as Hshort
    by (apply (bool_decide_unpack _); vm_compute; exact I).
  repeat (split; [assumption|]). split.
  - exact (proj1 (format_skips_absent_placeholders example_hash example_world 1
                    "{namespace}:{path}{hash}" (Some (HValue "v"))) Hincr).
  - exact (proj2 (format_skips_absent_placeholders example_hash example_world 1
                    "{namespace}.{scope}{incr}" (Some (HValue "v"))) Hhash Hshort).
Defined.

Lemma path_default_twice_witness :
  scope (self_of 1 example_world) = [PStr "a"; PStr "b"] /\
  registry_at (registry (self_of 1 example_world)) example_world = ∅ /\
  exists w1 w2,
    path example_hash 1 path_default_fmt None example_world =
      (Ok "ns:a/b/generated_0", w1) /\
    path example_hash 1 path_default_fmt None w1 = (Ok "ns:a/b/generated_1", w2).
Proof.
  split; [reflexivity|]. split; [reflexivity|].
  apply (path_default_twice example_hash example_world 1); reflexivity.
Defined.

Lemma cache_hit_skips_body_witness :
  bucket_json (ctx_of 2 cached_world) "mycache" !! "draft_key" =
    Some (effective_key "v1" false) /\
  forall n body,
    for_in (S n) (Draft_cache 2 "mycache" "v1" false true) body cached_world =
      bind (load_into 4 ".beet_cache/mycache/draft_resource_pack")
        (fun _ => bind (load_into 5 ".beet_cache/mycache/draft_data_pack")
                    (fun _ => Draft_apply 2)) cached_world.
Proof.
  split; [reflexivity|].
  exact (proj1 (proj2 (cache_hit_skips_body cached_world 2 "mycache" "v1" false true
                         eq_refl))).
Defined.


Lemma cache_abandoned_persists_nothing_witness :
  bucket_json (ctx_of 2 example_world) "mycache" !! "draft_key" <>
    Some (effective_key "v1" false) /\
  forall n body e w1,
    body 2 example_world = (Raise e, w1) ->
    for_in (S n) (Draft_cache 2 "mycache" "v1" false true) body example_world =
      (Raise e, w1).
Proof.
  assert (bucket_json (ctx_of 2 example_world) "mycache" !! "draft_key" <>
            Some (effective_key "v1" false)) as Hmiss by (vm_compute; discriminate).
  split; [exact Hmiss|].
  exact (proj2 (cache_abandoned_persists_nothing example_world 2 "mycache" "v1"
                  false true Hmiss)).
Defined.

(** A call of generator 1 with no argument at all: the exception is the
    [IndexError] of [args[0]], not one of a class [InvalidArgument]. *)
Lemma call_without_arguments_raises_IndexError :
  ~ exists e w',
      call example_hash example_data_field_map example_assets_field_map example_render
        1 [] None None [] example_world = (Raise e, w') /\
      exn_class e = Some "InvalidArgument".
Proof.
  intros (e & w' & Hrun & Hclass).
  assert (call example_hash example_data_field_map example_assets_field_map example_render
            1 [] None None [] example_world = (Raise IndexError, example_world)) as Hcall
    by reflexivity.
  rewrite Hcall in Hrun. inversion Hrun; subst. discriminate Hclass.
Qed.



(** *** Runs of the small build *)

(** A function given without a template is stored in the data pack under
    the default path; the class of the file extends the scope of the
    counter but not the path. *)
Example call_registers_function :
  let '(r, w) := call example_hash example_data_field_map example_assets_field_map
                   example_render 1 [ArgFile greeting] None None [] example_world in
  r = Ok "ns:a/b/generated_0" /\
  pack_getitem "ns:a/b/generated_0" (pack_at 1 w) = Some greeting /\
  registry_at 0 w !!
    [PStr "ns"; PStr "a"; PStr "b"; PType "Function";
     PStr "{namespace}:{path}generated_{incr}"] = Some 1%Z /\
  hash_calls w = [].
Proof. vm_compute. repeat split; reflexivity. Qed.

(** With [{hash}] in the template the content hash is computed, once. *)
Example call_hashes_on_demand :
  let '(r, w) := call example_hash example_data_field_map example_assets_field_map
                   example_render 1 [ArgStr "hello_{hash}"; ArgFile greeting] None None []
                   example_world in
  r = Ok "ns:a/b/hello_0123456789abcdef" /\
  hash_calls w = [(HSerialized greeting, false)] /\
  registry_at 0 w = ∅.
Proof. vm_compute. repeat split; reflexivity. Qed.

(** An unknown placeholder is a [KeyError]; the fields after it are not
    rendered. *)
Example format_unknown_placeholder :
  let '(r, w) := format example_hash 1 "{namespace}/{nope}{incr}" None example_world in
  r = Raise (KeyError "nope") /\ registry_at 0 w = ∅.
Proof. vm_compute. split; reflexivity. Qed.

(** A template that ends badly fails after its fields were rendered: the
    counter has advanced twice. *)
Example format_error_keeps_increments :
  let '(r, w) := format example_hash 1 "{incr}{incr}}" None example_world in
  r = Raise (ValueError "Single '}' encountered in format string") /\
  registry_at 0 w !! [PStr "ns"; PStr "a"; PStr "b"; PStr "{incr}{incr}}"] = Some 2%Z.
Proof. vm_compute. split; reflexivity. Qed.

(** A miss: the body stores a function in the draft; the data pack is
    saved, the key is stored and the draft is applied. *)
Example cache_miss_run :
  let '(r, w) := for_in 2 (Draft_cache 2 "mycache" "v1" false true)
                   (fun d => populate d true "greeting:hello" greeting) example_world in
  r = Ok tt /\
  fs w = {[ ".beet_cache/mycache/draft_data_pack" := {[ "greeting:hello" := greeting ]} ]} /\
  bucket_json (contexts w !!! 0) "mycache" !! "draft_key" = Some "v1 zipped=False" /\
  pack_getitem "greeting:hello" (pack_at 1 w) = Some greeting.
Proof. vm_compute. repeat split; reflexivity. Qed.

(** A hit: the body, which would raise, is not run; the snapshot is loaded
    into the draft and applied. *)
Example cache_hit_run :
  let '(r, w) := for_in 2 (Draft_cache 2 "mycache" "v1" false true)
                   (fun _ => raise (ValueError "the body ran")) cached_world in
  r = Ok tt /\
  pack_getitem "greeting:hello" (pack_at 5 w) = Some greeting /\
  pack_getitem "greeting:hello" (pack_at 1 w) = Some greeting.
Proof. vm_compute. repeat split; reflexivity. Qed.

(** ** Further properties of the generator *)

Section MoreProperties.

Context `{Container}.

Variable stable_hash_fn : hashval -> bool -> string.
Variable data_field_map : gmap string string.
Variable assets_field_map : gmap string string.
Variable render_file : string -> string -> File -> list (string * string) -> M unit.

Notation "x <- m ;; k" := (bind m (fun x => k))
  (at level 100, m at next level, right associativity).
Notation "m ;;; k" := (bind m (fun _ => k))
  (at level 100, right associativity).

(** *** Strings *)

Lemma append_cons (a : ascii) (s t : string) : String a s +:+ t = String a (s +:+ t).
Proof. reflexivity. Qed.

Lemma append_assoc (s t u : string) : (s +:+ t) +:+ u = s +:+ (t +:+ u).
Proof.
  induction s as [|a s IH]; [done|]. rewrite !append_cons. by rewrite IH.
Qed.

Lemma append_empty_inv (s t : string) : s +:+ t = "" -> s = "" /\ t = "".
Proof. destruct s; [done|]. rewrite append_cons. discriminate. Qed.

Lemma concat_cons (x : string) (l : list string) :
  String.concat "" (x :: l) = x +:+ String.concat "" l.
Proof. destruct l; [by rewrite append_empty_r|reflexivity]. Qed.

Lemma concat_app (l1 l2 : list string) :
  String.concat "" (l1 ++ l2) = String.concat "" l1 +:+ String.concat "" l2.
Proof.
  induction l1 as [|x l1 IH]; [done|].
  rewrite <- app_comm_cons, !concat_cons, IH. by rewrite append_assoc.
Qed.

Lemma concat_empty (l : list string) :
  String.concat "" l = "" <-> Forall (fun s => s = "") l.
Proof.
  induction l as [|x l IH]; [by split|].
  rewrite concat_cons. split.
  - intros [-> Hl]%append_empty_inv. constructor; [done|by apply IH].
  - intros Hall. inversion Hall as [|? ? -> Hl]; subst. by apply IH.
Qed.

(** *** Prefixes *)

(** The parts of a scope that [get_prefix] keeps, each with its separator. *)
Lemma get_prefix_of_unfold (c : Context) (g : Generator) (separator : string) :
  get_prefix_of c g separator =
    String.concat ""
      (omap (fun part => (fun s => s +:+ separator) <$> prefix_part part)
         (match meta c !! "generate_prefix" with
          | Some prefix_value =>
              if decide (prefix_value = "") then [] else [PStr prefix_value]
          | None => []
          end ++ scope g)).
Proof. reflexivity. Qed.

(** X1: the prefix of [g[key]] is the prefix of [g] followed by [key] and
    the separator when [key] is a non-empty string, and the prefix of [g]
    itself for every other key. *)
Theorem get_prefix_getitem (w : World) (self : loc) (key : pyval) (separator : string) :
  exists child w',
    getitem self key w = (Ok child, w') /\
    get_prefix child separator w' =
      (Ok (get_prefix_of (ctx_of self w) (self_of self w) separator +:+
           match key with
           | PStr s => if decide (s = "") then "" else s +:+ separator
           | _ => ""
           end), w').
Proof.
  eexists _, _. split; [reflexivity|].
  unfold get_prefix, gets. f_equal. f_equal.
  unfold ctx_of, self_of. cbn [generators contexts set_generators].
  rewrite lookup_total_insert_eq. cbn [ctx scope].
  rewrite !get_prefix_of_unfold. cbn [scope].
  rewrite app_assoc, omap_app, concat_app. f_equal.
  destruct key as [s| |]; simpl; try done. by case_decide.
Qed.

(** X2: [get_prefix] is the empty string exactly when [meta] gives no
    prefix and the scope has no non-empty string. *)
Theorem get_prefix_empty_iff (c : Context) (g : Generator) (separator : string) :
  get_prefix_of c g separator = "" <->
  (meta c !! "generate_prefix" = None \/ meta c !! "generate_prefix" = Some "") /\
  Forall (fun part => prefix_part part = None) (scope g).
Proof.
  rewrite get_prefix_of_unfold, concat_empty.
  assert (forall parts : list pyval,
             Forall (fun s => s = "")
               (omap (fun part => (fun s => s +:+ separator) <$> prefix_part part) parts) <->
             Forall (fun part => prefix_part part = None) parts) as Hparts.
  { induction parts as [|part parts IH]; [by split|].
    simpl. destruct (prefix_part part) as [s|] eqn:Hpart; simpl.
    - split; intros Hall; inversion Hall as [|? ? Hhead Htail]; subst.
      + apply append_empty_inv in Hhead as [-> _].
        destruct part as [s| |]; simpl in Hpart; try done.
        destruct (decide (s = "")); congruence.
      + congruence.
    - change (list_omap pyval string ?f parts) with (omap f parts).
      rewrite IH. split; [by constructor|by inversion 1]. }
  rewrite Hparts, Forall_app.
  destruct (meta c !! "generate_prefix") as [prefix_value|] eqn:Hmeta.
  - case_decide as Hempty.
    + subst. split; [intros [_ ?]; split; [by right|done]|intros [_ ?]; by split].
    + split.
      * intros [Hprefix _]. inversion Hprefix as [|? ? Hhead _]; subst.
        simpl in Hhead. by rewrite decide_False in Hhead by done.
      * intros [[?|?] _]; congruence.
  - split; [intros [_ ?]; split; [by left|done]|intros [_ ?]; by split].
Qed.

(** *** Counters *)

(** X3: the composite key is flat: [g[k].get_increment(ks...)] reads and
    advances the counter of [g.get_increment(k, ks...)]. *)
Theorem get_increment_getitem (w : World) (self : loc) (k : pyval) (ks : list pyval) :
  exists child w',
    getitem self k w = (Ok child, w') /\
    counter_of w' (child, ks) = counter_of w (self, k :: ks) /\
    (get_increment child ks w').1 = (get_increment self (k :: ks) w).1 /\
    registries (get_increment child ks w').2 =
      registries (get_increment self (k :: ks) w).2.
Proof.
  eexists _, _. split; [reflexivity|].
  set (w' := set_generators _ w).
  assert (counter_of w' (fresh (dom (generators w)), ks) = counter_of w (self, k :: ks))
    as Hcounter.
  { unfold counter_of, ctx_of, self_of, increment_key, w'.
    cbn [fst snd generators contexts set_generators].
    rewrite lookup_total_insert_eq. cbn [ctx scope registry].
    by rewrite <- app_assoc. }
  split; [done|].
  rewrite !get_increment_step. unfold counter_of in Hcounter.
  cbn [fst snd] in Hcounter |- *. apply pair_equal_spec in Hcounter as [Hregistry Hkey].
  rewrite Hregistry, Hkey. split; reflexivity.
Qed.

(** X4: a draft counts on the registry of its generator: a
    [get_increment] through the draft reads and advances the counter the
    generator itself would use. *)
Theorem draft_shares_counters (w : World) (self : loc) (key : list pyval) :
  exists d w',
    draft self w = (Ok d, w') /\
    counter_of w' (d, key) = counter_of w (self, key) /\
    (get_increment d key w').1 = (get_increment self key w).1 /\
    registries (get_increment d key w').2 = registries (get_increment self key w).2.
Proof.
  eexists _, _. split; [reflexivity|].
  match goal with |- counter_of ?u (?l, _) = _ /\ _ => set (w' := u); set (d := l) end.
  assert (counter_of w' (d, key) = counter_of w (self, key)) as Hcounter.
  { unfold counter_of, ctx_of, self_of, increment_key, w', d.
    cbn [fst snd generators contexts set_generators set_packs].
    rewrite lookup_total_insert_eq. reflexivity. }
  split; [done|].
  rewrite !get_increment_step. unfold counter_of in Hcounter.
  cbn [fst snd] in Hcounter |- *. apply pair_equal_spec in Hcounter as [Hregistry Hkey].
  rewrite Hregistry, Hkey. split; reflexivity.
Qed.

(** *** push *)

(** X5: inside [with self.push():] the root generator has the prefix of
    [self], provided the root belongs to the context of [self]. *)
Theorem push_gives_root_the_prefix (w : World) (self : loc) (separator : string) :
  let root := generate (ctx_of self w) in
  let entered := (push_enter self w).2 in
  ctx (self_of root w) = ctx (self_of self w) ->
  get_prefix root separator entered =
    (Ok (get_prefix_of (ctx_of self w) (self_of self w) separator), entered).
Proof.
  intros root entered Hctx. unfold get_prefix, gets. f_equal. f_equal.
  unfold entered, push_enter, assign_root, ctx_of, self_of.
  cbn [snd generators contexts set_generators].
  fold (self_of self w) (ctx_of self w). fold root.
  rewrite lookup_total_insert_eq. unfold assign_pushed, pushed_of.
  cbn [ctx scope previous_scope]. fold (self_of root w). rewrite Hctx.
  reflexivity.
Qed.

(** *** Formatting *)

Lemma format_env_dom (w : World) (self : loc) (fmt : string) (hash : option hashval)
    (name : string) :
  is_Some (format_env stable_hash_fn self fmt hash w !! name) ->
  name ∈ ["namespace"; "path"; "scope"; "incr"] \/
  (is_Some hash /\ name ∈ ["hash"; "short_hash"]).
Proof.
  unfold format_env. intros [v Hv].
  assert (forall a b c d : env_value,
             <["incr" := a]> (<["scope" := b]> (<["path" := c]>
               (<["namespace" := d]> (∅ : gmap string env_value)))) !! name = Some v ->
             name ∈ ["namespace"; "path"; "scope"; "incr"]) as Hbase.
  { intros a b c d Hl.
    apply lookup_insert_Some in Hl as [[<- _]|[_ Hl]]; [by repeat constructor|].
    apply lookup_insert_Some in Hl as [[<- _]|[_ Hl]]; [by repeat constructor|].
    apply lookup_insert_Some in Hl as [[<- _]|[_ Hl]]; [by repeat constructor|].
    apply lookup_insert_Some in Hl as [[<- _]|[_ Hl]]; [by repeat constructor|].
    by rewrite lookup_empty in Hl. }
  destruct hash as [value|].
  - apply lookup_insert_Some in Hv as [[<- _]|[_ Hv]]; [right; split; [by eexists|by repeat constructor]|].
    apply lookup_insert_Some in Hv as [[<- _]|[_ Hv]]; [right; split; [by eexists|by repeat constructor]|].
    left. by eapply Hbase.
  - left. by eapply Hbase.
Qed.

Lemma output_markup_ok (expand : string -> M string) (env : gmap string env_value)
    (field_name : string) (conversion : option ascii) (format_spec : string)
    (w : World) (s : string) (w' : World) :
  output_markup expand env field_name conversion format_spec w = (Ok s, w') ->
  exists v spec w1,
    env !! (field_name_split field_name).1 = Some v /\
    (if needs_expanding format_spec then expand format_spec w = (Ok spec, w1)
     else spec = format_spec /\ w1 = w) /\
    render_field v spec w1 = (Ok s, w').
Proof.
  unfold output_markup. destruct (field_name_split field_name) as [first more]. simpl.
  destruct (positional first); [done|].
  destruct (env !! first) as [v|]; [|done].
  case_decide; [|done].
  destruct conversion as [c|]; [by case_decide|].
  unfold bind at 1. intros Hrun.
  destruct (needs_expanding format_spec).
  - destruct (expand format_spec w) as [[spec|e] w1] eqn:Hexpand; [|done].
    by exists v, spec, w1.
  - by exists v, format_spec, w.
Qed.

Lemma render_tokens_ok (expand : string -> M string) (env : gmap string env_value)
    (toks : list token) :
  forall w s w',
    render_tokens expand env toks w = (Ok s, w') ->
    forall field_name conversion format_spec,
      TField field_name conversion format_spec ∈ toks ->
      is_Some (env !! (field_name_split field_name).1) /\
      (needs_expanding format_spec = true ->
       exists w0 spec w1, expand format_spec w0 = (Ok spec, w1)).
Proof.
  induction toks as [|[text|fn cv sp] toks IH]; intros w s w' Hrun f c p Hin.
  - by apply elem_of_nil in Hin.
  - simpl in Hrun. unfold bind in Hrun.
    destruct (render_tokens expand env toks w) as [[tail|e] w1] eqn:Htail; [|done].
    apply elem_of_cons in Hin as [Heq|Hin]; [done|]. by eapply IH.
  - simpl in Hrun. unfold bind at 1 in Hrun.
    destruct (output_markup expand env fn cv sp w) as [[out|e] w1] eqn:Hfield; [|done].
    unfold bind in Hrun.
    destruct (render_tokens expand env toks w1) as [[tail|e] w2] eqn:Htail; [|done].
    apply elem_of_cons in Hin as [Heq|Hin]; [|by eapply IH].
    inversion Heq; subst f c p.
    apply output_markup_ok in Hfield as (v & spec & w0 & Hv & Hexpand & _).
    split; [by eexists|]. intros Hneeds. rewrite Hneeds in Hexpand. by eexists _, _, _.
Qed.

Lemma build_string_ok (env : gmap string env_value) (recursion_depth : nat) :
  forall input w s w',
    build_string env recursion_depth input w = (Ok s, w') ->
    (tokenize input).2 = None /\
    Forall (fun name => is_Some (env !! name)) (fields_at recursion_depth input).
Proof.
  induction recursion_depth as [|d IH]; intros input w s w' Hrun; [done|].
  simpl in *. destruct (tokenize input) as [toks err]. simpl.
  unfold bind in Hrun.
  destruct (render_tokens (build_string env d) env toks w) as [[out|e] w1] eqn:Htoks;
    [|done].
  split; [by destruct err|].
  apply Forall_forall. intros name Hname.
  apply list_elem_of_In, in_flat_map in Hname as ([text|fn cv sp] & Hin & Hname);
    [done|].
  apply list_elem_of_In in Hin.
  destruct (render_tokens_ok _ _ _ _ _ _ Htoks fn cv sp Hin) as [Hfirst Hnested].
  destruct Hname as [<-|Hname]; [done|].
  destruct (needs_expanding sp); [|done].
  destruct (Hnested eq_refl) as (w0 & spec & w2 & Hexpand).
  apply IH in Hexpand as [_ Hall].
  rewrite Forall_forall in Hall. by apply Hall, list_elem_of_In.
Qed.

(** X6: on a template whose replacement fields are all of the plain form
    [{name}]: when [format] returns a string, the template is well formed and
    every placeholder it names is one of [namespace], [path], [scope], [incr],
    or, when a [hash] was given, [hash] or [short_hash]; any other placeholder
    makes the call fail. *)
Theorem format_ok_placeholders (w : World) (self : loc) (fmt : string)
    (hash : option hashval) (s : string) (w' : World) :
  plain_template fmt = true ->
  format stable_hash_fn self fmt hash w = (Ok s, w') ->
  (tokenize fmt).2 = None /\
  Forall (fun name => name ∈ ["namespace"; "path"; "scope"; "incr"] \/
                      (is_Some hash /\ name ∈ ["hash"; "short_hash"]))
    (template_fields fmt).
Proof.
  intros _. rewrite format_unfold. intros Hrun.
  apply build_string_ok in Hrun as [Herr Hall]. split; [done|].
  eapply Forall_impl; [exact Hall|]. intros name. apply format_env_dom.
Qed.

Lemma tokenize_from_text (s : string) :
  forall text,
    Forall (fun c => c <> "{"%char /\ c <> "}"%char) (list_ascii_of_string s) ->
    tokenize_from (InText text) s = ([TLiteral (text +:+ s)], None).
Proof.
  induction s as [|c s IH]; intros text Hall.
  - simpl. by rewrite append_empty_r.
  - simpl in Hall. inversion Hall as [|? ? [Hopen Hclose] Htail]; subst.
    cbn [tokenize_from scan_step]. rewrite !decide_False by done.
    rewrite IH by done. unfold snoc. by rewrite append_assoc.
Qed.

(** X7: a template without braces is returned as it is, and nothing is
    evaluated: the store does not change. *)
Theorem format_plain_text (w : World) (self : loc) (fmt : string) (hash : option hashval) :
  Forall (fun c => c <> "{"%char /\ c <> "}"%char) (list_ascii_of_string fmt) ->
  format stable_hash_fn self fmt hash w = (Ok fmt, w).
Proof.
  intros Hplain. rewrite format_unfold. cbn [build_string].
  unfold tokenize. rewrite tokenize_from_text by done.
  cbn [render_tokens]. cbv [bind ret]. by rewrite append_empty_r.
Qed.

(** How often the lazy values are evaluated: a quantity [mu] of the store
    that the value of name [n] moves by [delta n] moves, over a successful
    [build_string], by the sum of [delta] over the names of the template. *)
Section Counting.

Variable mu : World -> Z.
Variable delta : string -> Z.
Variable env : gmap string env_value.

Hypothesis delta_eager : forall name s, env !! name = Some (Eager s) -> delta name = 0%Z.
Hypothesis delta_lazy : forall name func,
  env !! name = Some (LazyFormat func) -> forall w, mu (func w).2 = (mu w + delta name)%Z.

Lemma render_field_counts (name : string) (v : env_value) (spec : string)
    (w : World) (s : string) (w' : World) :
  env !! name = Some v ->
  render_field v spec w = (Ok s, w') -> mu w' = (mu w + delta name)%Z.
Proof.
  intros Hv. unfold render_field, bind. destruct v as [text|func].
  - rewrite (delta_eager _ _ Hv). unfold ret.
    case_decide; intros Hrun; inversion Hrun; subst; lia.
  - pose proof (delta_lazy _ _ Hv w) as Hmu.
    destruct (func w) as [[out|e] w1]; [|done]. simpl in Hmu.
    case_decide; intros Hrun; inversion Hrun; subst; lia.
Qed.

Lemma sum_delta_app (l1 l2 : list string) :
  foldr Z.add 0%Z (delta <$> (l1 ++ l2)) =
    (foldr Z.add 0%Z (delta <$> l1) + foldr Z.add 0%Z (delta <$> l2))%Z.
Proof.
  rewrite fmap_app. generalize (delta <$> l1) as zs. intros zs.
  induction zs as [|z zs IH]; simpl; lia.
Qed.

Lemma build_string_counts (recursion_depth : nat) :
  forall input w s w',
    build_string env recursion_depth input w = (Ok s, w') ->
    mu w' = (mu w + foldr Z.add 0%Z (delta <$> fields_at recursion_depth input))%Z.
Proof.
  induction recursion_depth as [|d IH]; intros input w s w' Hrun; [done|].
  simpl in *. destruct (tokenize input) as [toks err]. simpl.
  unfold bind in Hrun.
  destruct (render_tokens (build_string env d) env toks w) as [[out|e] w1] eqn:Htoks;
    [|done].
  assert (w' = w1) as -> by (destruct err; by inversion Hrun).
  clear Hrun. revert w out w1 Htoks.
  induction toks as [|[text|fn cv sp] toks IHt]; intros w out w1 Htoks.
  - inversion Htoks; subst. simpl. lia.
  - simpl in Htoks |- *. unfold bind in Htoks.
    destruct (render_tokens _ env toks w) as [[tail|e] w2] eqn:Htail; [|done].
    inversion Htoks; subst. by eapply IHt.
  - simpl in Htoks. unfold bind at 1 in Htoks.
    destruct (output_markup _ env fn cv sp w) as [[field|e] w2] eqn:Hfield; [|done].
    unfold bind in Htoks.
    destruct (render_tokens _ env toks w2) as [[tail|e] w3] eqn:Htail; [|done].
    inversion Htoks; subst. apply IHt in Htail.
    apply output_markup_ok in Hfield as (v & spec & w0 & Hv & Hexpand & Hrender).
    apply (render_field_counts _ _ _ _ _ _ Hv) in Hrender.
    cbn [flat_map]. rewrite sum_delta_app. cbn [fmap list_fmap foldr].
    destruct (needs_expanding sp).
    + apply IH in Hexpand. lia.
    + destruct Hexpand as [_ ->]. simpl. lia.
Qed.

End Counting.

Lemma sum_indicator (name : string) (l : list string) :
  foldr Z.add 0%Z ((fun n => if decide (n = name) then 1%Z else 0%Z) <$> l) =
    Z.of_nat (count_occ string_dec l name).
Proof.
  induction l as [|x l IH]; [done|]. cbn [fmap list_fmap foldr count_occ].
  change (list_fmap string Z ?f l) with (f <$> l). rewrite IH.
  destruct (string_dec x name), (decide (x = name)); try done; lia.
Qed.

Lemma format_env_eager (w : World) (self : loc) (fmt : string) (hash : option hashval)
    (name s : string) :
  format_env stable_hash_fn self fmt hash w !! name = Some (Eager s) -> name = "namespace".
Proof.
  unfold format_env. intros Hv.
  assert (forall a b c d : env_value,
             a <> Eager s -> b <> Eager s -> c <> Eager s ->
             <["incr" := a]> (<["scope" := b]> (<["path" := c]>
               (<["namespace" := d]> (∅ : gmap string env_value)))) !! name
               = Some (Eager s) ->
             name = "namespace") as Hbase.
  { intros a b c d Ha Hb Hc Hl.
    apply lookup_insert_Some in Hl as [[_ ?]|[_ Hl]]; [done|].
    apply lookup_insert_Some in Hl as [[_ ?]|[_ Hl]]; [done|].
    apply lookup_insert_Some in Hl as [[_ ?]|[_ Hl]]; [done|].
    apply lookup_insert_Some in Hl as [[<- _]|[_ Hl]]; [done|].
    by rewrite lookup_empty in Hl. }
  destruct hash as [value|].
  - apply lookup_insert_Some in Hv as [[_ ?]|[_ Hv]]; [done|].
    apply lookup_insert_Some in Hv as [[_ ?]|[_ Hv]]; [done|].
    eapply Hbase; [| | |exact Hv]; done.
  - eapply Hbase; [| | |exact Hv]; done.
Qed.

(** The relation [format] keeps: it writes registries and the record of the
    hash calls only. *)
Lemma format_frame (self : loc) (fmt : string) (hash : option hashval) :
  preserves (fun w w' => generators w' = generators w /\ contexts w' = contexts w /\
                        packs w' = packs w /\ fs w' = fs w)
    (format stable_hash_fn self fmt hash).
Proof.
  intros w. rewrite format_unfold.
  apply (build_string_preserves
           (fun w w' => generators w' = generators w /\ contexts w' = contexts w /\
                        packs w' = packs w /\ fs w' = fs w)).
  - done.
  - intros w1 w2 w3 (?&?&?&?) (?&?&?&?). repeat split; congruence.
  - intros name func _ Henv.
    apply format_env_lazy in Henv
      as [[_ ->]|[[_ ->]|[[_ ->]|(value & _ & [[_ ->]|[_ ->]])]]]; done.
Qed.

(** X8: on a template whose replacement fields are all of the plain form
    [{name}]: when [format] returns a string, the counter of the template has
    advanced once for every [{incr}] the template holds: each occurrence is
    evaluated on its own. *)
Theorem format_counts_incr (w : World) (self : loc) (fmt : string)
    (hash : option hashval) (s : string) (w' : World) :
  let r := registry (self_of self w) in
  let k := increment_key (ctx_of self w) (self_of self w) [PStr fmt] in
  plain_template fmt = true ->
  format stable_hash_fn self fmt hash w = (Ok s, w') ->
  default 0%Z (registry_at r w' !! k) =
    (default 0%Z (registry_at r w !! k) +
     Z.of_nat (count_occ string_dec (template_fields fmt) "incr"))%Z.
Proof.
  intros r k _ Hrun.
  pose proof (format_frame self fmt hash w) as (Hgen & Hctx & _). rewrite Hrun in Hgen, Hctx.
  simpl in Hgen, Hctx.
  set (mu := fun u : World =>
               default 0%Z
                 (registry_at (registry (self_of self u)) u
                    !! increment_key (ctx_of self u) (self_of self u) [PStr fmt])).
  assert (mu w' = default 0%Z (registry_at r w' !! k)) as <-.
  { unfold mu, r, k, ctx_of, self_of. by rewrite Hgen, Hctx. }
  change (default 0%Z (registry_at r w !! k)) with (mu w).
  rewrite <- sum_indicator. rewrite format_unfold in Hrun.
  apply (build_string_counts mu (fun n => if decide (n = "incr") then 1%Z else 0%Z)
           (format_env stable_hash_fn self fmt hash w)) in Hrun; [done| |].
  - intros name text Henv. apply format_env_eager in Henv as ->. done.
  - intros name func Henv u.
    apply format_env_lazy in Henv
      as [[-> ->]|[[-> ->]|[[-> ->]|(value & _ & [[-> ->]|[-> ->]])]]].
    + rewrite decide_True by done. unfold bind. rewrite get_increment_step.
      unfold ret. cbn [snd]. unfold mu at 1.
      change (self_of self (set_registries ?f u)) with (self_of self u).
      change (ctx_of self (set_registries ?f u)) with (ctx_of self u).
      rewrite registry_at_set_registries, decide_True by done.
      by rewrite lookup_insert_eq.
    + rewrite decide_False by done. unfold get_prefix, gets. simpl. lia.
    + rewrite decide_False by done. unfold get_prefix, gets. simpl. lia.
    + rewrite decide_False by done. unfold stable_hash, mu. cbn [snd].
      change (self_of self (set_hash_calls ?f u)) with (self_of self u).
      change (ctx_of self (set_hash_calls ?f u)) with (ctx_of self u).
      change (registry_at ?r (set_hash_calls ?f u)) with (registry_at r u). lia.
    + rewrite decide_False by done. unfold stable_hash, mu. cbn [snd].
      change (self_of self (set_hash_calls ?f u)) with (self_of self u).
      change (ctx_of self (set_hash_calls ?f u)) with (ctx_of self u).
      change (registry_at ?r (set_hash_calls ?f u)) with (registry_at r u). lia.
Qed.

(** X9: generating a name writes counters and the record of the hash calls
    only: [format], [path], [id] and [hash] leave every generator, context,
    pack and the file system as they are, whether they return or raise. *)
Theorem naming_keeps_packs (w : World) (self : loc) (fmt : string) (hash : option hashval)
    (short : bool) :
  let kept (w' : World) :=
    generators w' = generators w /\ contexts w' = contexts w /\
    packs w' = packs w /\ fs w' = fs w in
  kept (format stable_hash_fn self fmt hash w).2 /\
  kept (path stable_hash_fn self fmt hash w).2 /\
  kept (Generator_id stable_hash_fn self fmt hash w).2 /\
  kept (Generator_hash stable_hash_fn self fmt hash short w).2.
Proof.
  intros kept. unfold kept.
  split; [apply format_frame|]. split; [apply format_frame|]. split; [apply format_frame|].
  unfold Generator_hash, meta_get. cbv [bind gets].
  pose proof (format_frame self
                (default "{namespace}.{scope}" (meta (ctx_of self w) !! "generate_hash") +:+ fmt)
                hash w) as Hframe.
  destruct (format _ _ _ _ w) as [[formatted|e] w1]; exact Hframe.
Qed.

(** *** Registration *)

(** The naming step of [__call__]: [self[file_type].path(...)]. *)
Lemma naming_frame {A} (self : loc) (k : pyval) (m : loc -> M A) (w : World) :
  (forall child,
      preserves (fun w w' => generators w' = generators w /\ contexts w' = contexts w /\
                            packs w' = packs w /\ fs w' = fs w) (m child)) ->
  let w1 := ((child <- getitem self k ;; m child) w).2 in
  contexts w1 = contexts w /\ packs w1 = packs w /\ fs w1 = fs w /\
  (is_Some (generators w !! self) -> self_of self w1 = self_of self w).
Proof.
  intros Hm. unfold bind, getitem. cbn [fst snd].
  set (child := fresh (dom (generators w))).
  set (w0 := set_generators _ w).
  destruct (Hm child w0) as (Hgen & Hctx & Hpacks & Hfs).
  destruct (m child w0) as [r w1]. simpl in *.
  repeat split; try done.
  intros Hself. unfold self_of. rewrite Hgen. unfold w0. simpl.
  rewrite lookup_total_insert_ne; [done|].
  intros Heq. apply (is_fresh (dom (generators w))). fold child. rewrite Heq.
  by apply elem_of_dom.
Qed.

Lemma path_frame (self : loc) (fmt : string) (hash : option hashval) :
  preserves (fun w w' => generators w' = generators w /\ contexts w' = contexts w /\
                        packs w' = packs w /\ fs w' = fs w)
    (path stable_hash_fn self fmt hash).
Proof. intros w. apply format_frame. Qed.

(** What [__call__] without [render] does, given the file it selected. *)
Lemma call_file_spec (w : World) (self : loc) (args : list pyarg) (hash : option hashval)
    (kwargs : list (string * string)) (fmt : option pyarg) (file : File) :
  is_Some (generators w !! self) ->
  call_arguments args None = Ok (fmt, ArgFile file) ->
  let g := self_of self w in
  let p := if bool_decide (is_Some (data_field_map !! file_class file))
           then data g else assets g in
  exists (r : outcome string) (w1 : World),
    contexts w1 = contexts w /\ packs w1 = packs w /\ fs w1 = fs w /\
    call stable_hash_fn data_field_map assets_field_map render_file
         self args None hash kwargs w =
      match r with
      | Ok key =>
          match pack_setitem key file (pack_at p w) with
          | Ok q => (Ok key, set_packs <[p := q]> w1)
          | Raise e => (Raise e, w1)
          end
      | Raise e => (Raise e, w1)
      end.
Proof.
  intros Hself Hargs g p. unfold call. unfold bind at 1. unfold lift at 1.
  rewrite Hargs. cbn beta iota.
  set (hash' := match hash with Some _ => hash | None => Some (HSerialized file) end).
  set (naming :=
         if fmt_truthy fmt
         then child <- getitem self (PType (file_class file)) ;;
              match fmt with
              | Some (ArgStr f) => path stable_hash_fn child f hash'
              | _ => raise (TypeError "can only concatenate str to str")
              end
         else child <- getitem self (PType (file_class file)) ;;
              path stable_hash_fn child path_default_fmt hash').
  assert (let w1 := (naming w).2 in
          contexts w1 = contexts w /\ packs w1 = packs w /\ fs w1 = fs w /\
          (is_Some (generators w !! self) -> self_of self w1 = self_of self w))
    as (Hctx & Hpacks & Hfs & Hg).
  { unfold naming. destruct (fmt_truthy fmt).
    - apply naming_frame. intros child. destruct fmt as [[f|f]|]; try done.
      apply path_frame.
    - apply naming_frame. intros child. apply path_frame. }
  exists (naming w).1, (naming w).2. repeat (split; [done|]).
  fold hash'. fold naming. unfold bind at 1.
  destruct (naming w) as [[key|e] w1]; [|done]. cbn [fst snd] in *.
  cbv [bind gets]. rewrite (Hg Hself). fold g. fold p.
  unfold setitem, pack_at. rewrite Hpacks. fold (pack_at p w).
  by destruct (pack_setitem key file (pack_at p w)).
Qed.

(** X10: a registration without [render] that returns a key has stored the
    file under that key with one [pack[key] = file], in the data pack when
    the class of the file is in the field map of the data pack and in the
    assets otherwise; no other pack, no context and no file is written. *)
Theorem call_stores_in_one_pack (w : World) (self : loc) (args : list pyarg)
    (hash : option hashval) (kwargs : list (string * string)) (key : string) (w' : World) :
  is_Some (generators w !! self) ->
  call stable_hash_fn data_field_map assets_field_map render_file
       self args None hash kwargs w = (Ok key, w') ->
  exists fmt file q,
    call_arguments args None = Ok (fmt, ArgFile file) /\
    let g := self_of self w in
    let p := if bool_decide (is_Some (data_field_map !! file_class file))
             then data g else assets g in
    pack_setitem key file (pack_at p w) = Ok q /\
    packs w' = <[p := q]> (packs w) /\
    contexts w' = contexts w /\ fs w' = fs w.
Proof.
  intros Hself Hcall.
  destruct (call_arguments args None) as [[fmt [text|file]]|e] eqn:Hargs.
  - unfold call, bind, lift in Hcall. by rewrite Hargs in Hcall.
  - destruct (call_file_spec w self args hash kwargs fmt file Hself Hargs)
      as (r & w1 & Hctx & Hpacks & Hfs & Hspec).
    rewrite Hspec in Hcall. exists fmt, file.
    destruct r as [key1|e]; [|done].
    destruct (pack_setitem key1 file _) as [q|e] eqn:Hset; [|done].
    inversion Hcall; subst. exists q. simpl. by rewrite Hpacks.
  - unfold call, bind, lift in Hcall. by rewrite Hargs in Hcall.
Qed.

(** A pack that is neither of the two packs of the generator, and that the
    template collaborator leaves alone, is as it was after [__call__],
    whatever the outcome. *)
Lemma call_keeps_other_packs (w : World) (self : loc) (args : list pyarg)
    (render : option File) (hash : option hashval) (kwargs : list (string * string))
    (p : loc) :
  is_Some (generators w !! self) ->
  p <> data (self_of self w) -> p <> assets (self_of self w) ->
  (forall key group file kw u,
      packs (render_file key group file kw u).2 !! p = packs u !! p) ->
  packs (call stable_hash_fn data_field_map assets_field_map render_file
              self args render hash kwargs w).2 !! p = packs w !! p.
Proof.
  intros Hself Hdata Hassets Hrender. unfold call. unfold bind at 1. unfold lift at 1.
  destruct (call_arguments args render) as [[fmt [text|file]]|e]; [done| |done].
  cbn beta iota.
  set (hash' := match hash, render with
                | None, None => Some (HSerialized file)
                | _, _ => hash
                end).
  set (naming :=
         if fmt_truthy fmt
         then child <- getitem self (PType (file_class file)) ;;
              match fmt with
              | Some (ArgStr f) => path stable_hash_fn child f hash'
              | _ => raise (TypeError "can only concatenate str to str")
              end
         else child <- getitem self (PType (file_class file)) ;;
              path stable_hash_fn child path_default_fmt hash').
  assert (let w1 := (naming w).2 in
          contexts w1 = contexts w /\ packs w1 = packs w /\ fs w1 = fs w /\
          (is_Some (generators w !! self) -> self_of self w1 = self_of self w))
    as (_ & Hpacks & _ & Hg).
  { unfold naming. destruct (fmt_truthy fmt).
    - apply naming_frame. intros child. destruct fmt as [[f|f]|]; try done.
      apply path_frame.
    - apply naming_frame. intros child. apply path_frame. }
  unfold bind at 1.
  destruct (naming w) as [[key|e] w1]; [|simpl in *; by rewrite Hpacks].
  cbn [fst snd] in *. cbv [bind gets]. rewrite (Hg Hself).
  set (g := self_of self w) in *.
  set (target := if bool_decide (is_Some (data_field_map !! file_class file))
                 then data g else assets g).
  assert (p <> target) as Htarget by (unfold target; by destruct (bool_decide _)).
  unfold setitem.
  destruct (pack_setitem key file (pack_at target w1)) as [q|e];
    [|simpl; by rewrite Hpacks].
  set (w2 := set_packs <[target := q]> w1).
  assert (packs w2 !! p = packs w !! p) as Hw2.
  { unfold w2. simpl. by rewrite lookup_insert_ne, Hpacks by done. }
  destruct render as [r|]; [|done].
  destruct ((if bool_decide (is_Some (data_field_map !! file_class file))
             then data_field_map else assets_field_map) !! file_class file)
    as [render_group|]; [|done].
  specialize (Hrender key render_group r kwargs w2).
  destruct (render_file key render_group r kwargs w2) as [[[]|e] w3];
    simpl in *; by rewrite Hrender.
Qed.

(** X11: what is registered through a draft stays in the draft: after
    [d = self.draft()] and a registration on [d], with or without [render]
    and whatever its outcome, every pack that existed before and that the
    template collaborator leaves alone is as it was. *)
Theorem draft_registration_is_isolated (w : World) (self : loc) (args : list pyarg)
    (render : option File) (hash : option hashval) (kwargs : list (string * string))
    (p : loc) :
  is_Some (packs w !! p) ->
  (forall key group file kw u,
      packs (render_file key group file kw u).2 !! p = packs u !! p) ->
  packs ((d <- draft self ;;
          call stable_hash_fn data_field_map assets_field_map render_file
               d args render hash kwargs) w).2 !! p = packs w !! p.
Proof.
  intros Hp Hrender.
  set (a' := fresh (dom (packs w))).
  set (d' := fresh (dom (<[a' := pack_new]> (packs w)))).
  set (l := fresh (dom (generators w))).
  assert (p <> a') as Hpa.
  { intros ->. apply (is_fresh (dom (packs w))). by apply elem_of_dom. }
  assert (p <> d') as Hpd.
  { intros ->. apply (is_fresh (dom (<[a' := pack_new]> (packs w)))).
    apply elem_of_dom. by rewrite lookup_insert_ne. }
  unfold bind at 1.
  assert (exists w1,
             draft self w = (Ok l, w1) /\ is_Some (generators w1 !! l) /\
             assets (self_of l w1) = a' /\ data (self_of l w1) = d' /\
             packs w1 !! p = packs w !! p) as (w1 & -> & Hl & Hassets & Hdata & Hp1).
  { eexists. split; [reflexivity|]. unfold self_of. simpl.
    rewrite lookup_insert_eq, lookup_total_insert_eq. simpl.
    fold a'. fold d'. split; [by eexists|]. split; [done|]. split; [done|].
    by rewrite !lookup_insert_ne by done. }
  rewrite <- Hp1.
  apply call_keeps_other_packs; [done|by rewrite Hdata|by rewrite Hassets|done].
Qed.

(** X12: a registration with [render] of a file whose class is in neither
    field map never returns a key, whatever the template collaborator does:
    once the name is generated and the file is stored in the assets, the
    lookup of the render group raises [KeyError]; the file stays stored. *)
Theorem call_render_unknown_class (w : World) (self : loc) (args : list pyarg)
    (r : File) (hash : option hashval) (kwargs : list (string * string)) :
  is_Some (generators w !! self) ->
  data_field_map !! file_class r = None ->
  assets_field_map !! file_class r = None ->
  let g := self_of self w in
  exists (named : outcome string) (w1 : World),
    contexts w1 = contexts w /\ packs w1 = packs w /\ fs w1 = fs w /\
    call stable_hash_fn data_field_map assets_field_map render_file
         self args (Some r) hash kwargs w =
      match named with
      | Ok key =>
          match pack_setitem key r (pack_at (assets g) w) with
          | Ok q => (Raise (KeyError (file_class r)), set_packs <[assets g := q]> w1)
          | Raise e => (Raise e, w1)
          end
      | Raise e => (Raise e, w1)
      end.
Proof.
  intros Hself Hdata Hassets g. unfold call. unfold bind at 1. unfold lift at 1.
  cbn [call_arguments]. cbn beta iota.
  set (hash' := match hash with Some _ => hash | None => hash end).
  set (naming :=
         if fmt_truthy (head args)
         then child <- getitem self (PType (file_class r)) ;;
              match head args with
              | Some (ArgStr f) => path stable_hash_fn child f hash'
              | _ => raise (TypeError "can only concatenate str to str")
              end
         else child <- getitem self (PType (file_class r)) ;;
              path stable_hash_fn child path_default_fmt hash').
  assert (let w1 := (naming w).2 in
          contexts w1 = contexts w /\ packs w1 = packs w /\ fs w1 = fs w /\
          (is_Some (generators w !! self) -> self_of self w1 = self_of self w))
    as (Hctx & Hpacks & Hfs & Hg).
  { unfold naming. destruct (fmt_truthy (head args)).
    - apply naming_frame. intros child. destruct (head args) as [[f|f]|]; try done.
      apply path_frame.
    - apply naming_frame. intros child. apply path_frame. }
  exists (naming w).1, (naming w).2. repeat (split; [done|]).
  fold hash'. fold naming. unfold bind at 1.
  destruct (naming w) as [[key|e] w1]; [|done]. cbn [fst snd] in *.
  cbv [bind gets]. rewrite (Hg Hself). fold g.
  rewrite Hdata.
  rewrite bool_decide_eq_false_2 by (by intros [? ?]).
  rewrite Hassets.
  unfold setitem, pack_at. rewrite Hpacks. fold (pack_at (assets g) w).
  by destruct (pack_setitem key r (pack_at (assets g) w)).
Qed.

(** *** apply() *)

Lemma merge_into_writes (dst src : loc) (w : World) :
  same_but_packs w (merge_into dst src w).2 /\
  forall p, p <> dst -> packs (merge_into dst src w).2 !! p = packs w !! p.
Proof.
  unfold merge_into. destruct (pack_merge _ _); simpl; (split; [by repeat split|]).
  - intros p Hp. by rewrite lookup_insert_ne.
  - done.
Qed.

(** [apply()] with the fields of the draft read once: the merges do not
    write generators. *)
Lemma Draft_apply_unfold (w : World) (self : loc) :
  let g := self_of self w in
  Draft_apply self w =
    ((if decide (assets g = parent_assets g) then ret tt
      else merge_into (parent_assets g) (assets g)) ;;;
     (if decide (data g = parent_data g) then ret tt
      else merge_into (parent_data g) (data g))) w.
Proof.
  intros g. unfold Draft_apply. cbv [bind gets]. fold g.
  set (first := if decide (assets g = parent_assets g) then ret tt
                else merge_into (parent_assets g) (assets g)).
  assert (generators (first w).2 = generators w) as Hgen.
  { unfold first. case_decide; [done|]. by destruct (merge_into_writes
      (parent_assets g) (assets g) w) as [[? _] _]. }
  destruct (first w) as [[[]|e] w1]; [|done]. simpl in Hgen.
  unfold self_of. rewrite Hgen. reflexivity.
Qed.

(** X13: [apply()] writes the two packs of the parent and nothing else:
    every other pack, among them the packs of the draft when they are not
    the parent's, and every generator, context, registry and file is as
    before, whether the merges succeed or raise. *)
Theorem apply_writes_parent_packs_only (w : World) (self : loc) :
  let g := self_of self w in
  let w' := (Draft_apply self w).2 in
  same_but_packs w w' /\
  forall p, p <> parent_assets g -> p <> parent_data g -> packs w' !! p = packs w !! p.
Proof.
  intros g w'. split; [apply Draft_apply_frame|].
  intros p Hpa Hpd. unfold w'. rewrite Draft_apply_unfold. fold g. unfold bind.
  assert (forall (cond : Prop) (dec : Decision cond) dst src u,
             p <> dst ->
             packs ((if dec then ret tt else merge_into dst src) u).2 !! p = packs u !! p)
    as Hstep.
  { intros cond dec dst src u Hne. destruct dec; [done|].
    by apply merge_into_writes. }
  pose proof (Hstep _ (decide (assets g = parent_assets g))
                (parent_assets g) (assets g) w Hpa) as Hfirst.
  destruct ((if decide (assets g = parent_assets g) then ret tt
             else merge_into (parent_assets g) (assets g)) w) as [[[]|e] w1];
    simpl in Hfirst; [|done].
  rewrite <- Hfirst. by apply Hstep.
Qed.

Lemma merge_into_set_generators (dst src : loc)
    (f : gmap loc Generator -> gmap loc Generator) (w : World) :
  merge_into dst src (set_generators f w) =
    ((merge_into dst src w).1, set_generators f (merge_into dst src w).2).
Proof.
  unfold merge_into. change (pack_at ?p (set_generators f w)) with (pack_at p w).
  by destruct (pack_merge _ _).
Qed.

(** X14: extending the scope of a draft does not change where it applies:
    [apply()] on [d[key]] has the outcome of [apply()] on [d] and leaves the
    same packs. *)
Theorem apply_after_getitem (w : World) (self : loc) (key : pyval) :
  let run := (child <- getitem self key ;; Draft_apply child) w in
  run.1 = (Draft_apply self w).1 /\
  packs run.2 = packs (Draft_apply self w).2.
Proof.
  set (child := fresh (dom (generators w))).
  set (g := self_of self w).
  set (record := mkGenerator (is_draft g) (ctx g) (scope g ++ [key]) (registry g)
                   (assets g) (data g) (parent_assets g) (parent_data g)).
  set (w0 := set_generators <[child := record]> w).
  assert (Draft_apply child w0 =
          ((Draft_apply self w).1,
           set_generators <[child := record]> (Draft_apply self w).2)) as Hrun.
  { assert (self_of child w0 = record) as Hchild.
    { unfold self_of, w0. simpl. by rewrite lookup_total_insert_eq. }
    rewrite !Draft_apply_unfold. rewrite Hchild. fold g.
    cbn [assets data parent_assets parent_data record].
    assert (forall (cond : Prop) (dec : Decision cond) dst src f u,
               (if dec then ret tt else merge_into dst src) (set_generators f u) =
                 (((if dec then ret tt else merge_into dst src) u).1,
                  set_generators f ((if dec then ret tt else merge_into dst src) u).2))
      as Hstep.
    { intros cond dec dst src f u. destruct dec; [done|].
      apply merge_into_set_generators. }
    unfold bind, w0. rewrite Hstep.
    destruct ((if decide (assets g = parent_assets g) then ret tt
               else merge_into (parent_assets g) (assets g)) w) as [[[]|e] w1];
      cbn [fst snd]; [|done].
    rewrite Hstep.
    by destruct ((if decide (data g = parent_data g) then ret tt
                  else merge_into (parent_data g) (data g)) w1). }
  intros run.
  assert (run = Draft_apply child w0) as -> by reflexivity.
  rewrite Hrun. by split.
Qed.

(** *** The draft cache *)

Lemma list_ascii_of_string_app (s t : string) :
  list_ascii_of_string (s +:+ t) = list_ascii_of_string s ++ list_ascii_of_string t.
Proof. induction s as [|a s IH]; [done|]. rewrite append_cons. simpl. by rewrite IH. Qed.

Lemma list_ascii_of_string_inj (s t : string) :
  list_ascii_of_string s = list_ascii_of_string t -> s = t.
Proof.
  intros Heq. rewrite <- (string_of_list_ascii_of_string s),
    <- (string_of_list_ascii_of_string t). by rewrite Heq.
Qed.

(** X15: the effective key determines the caller's key and the [zipped]
    flag: two calls of [cache] compare equal keys only when both agree, so a
    change of either is a miss. *)
Theorem effective_key_inj (key1 key2 : string) (zipped1 zipped2 : bool) :
  effective_key key1 zipped1 = effective_key key2 zipped2 <->
  key1 = key2 /\ zipped1 = zipped2.
Proof.
  split; [|by intros [-> ->]].
  unfold effective_key. intros Heq.
  apply (f_equal list_ascii_of_string) in Heq.
  rewrite !list_ascii_of_string_app in Heq.
  destruct zipped1, zipped2.
  - rewrite !app_assoc in Heq. apply app_inv_tail in Heq.
    apply app_inv_tail in Heq. by apply list_ascii_of_string_inj in Heq.
  - exfalso. apply (f_equal (@rev ascii)) in Heq.
    rewrite !rev_app_distr in Heq. simpl in Heq. discriminate Heq.
  - exfalso. apply (f_equal (@rev ascii)) in Heq.
    rewrite !rev_app_distr in Heq. simpl in Heq. discriminate Heq.
  - rewrite !app_assoc in Heq. apply app_inv_tail in Heq.
    apply app_inv_tail in Heq. by apply list_ascii_of_string_inj in Heq.
Qed.

(** X16: the two snapshots of a bucket never share a path, and the zipped
    and the plain snapshot of a pack have different paths. *)
Theorem snapshot_paths_distinct (x : Context) (name : string) (zipped zipped' : bool) :
  cached_resource_pack_of x name zipped <> cached_data_pack_of x name zipped' /\
  cached_resource_pack_of x name zipped <> cached_resource_pack_of x name (negb zipped) /\
  cached_data_pack_of x name zipped <> cached_data_pack_of x name (negb zipped).
Proof.
  unfold cached_resource_pack_of, cached_data_pack_of, bucket_file.
  assert (forall f f' : string,
             cache_path x +:+ "/" +:+ name +:+ "/" +:+ f =
             cache_path x +:+ "/" +:+ name +:+ "/" +:+ f' -> f = f') as Hinj.
  { intros f f' Heq. by repeat apply String.app_inj in Heq. }
  repeat split; intros Heq%Hinj;
    destruct zipped, zipped'; vm_compute in Heq; discriminate Heq.
Qed.

(** X17: the code after the [yield] writes one entry of the metadata: every
    other context, the project id, the meta and the root generator of the
    context, every other bucket and every other entry of the bucket are as
    before. *)
Theorem cache_store_keeps_other_metadata (w1 w2 : World) (self c : loc)
    (name rp dp ek : string) (apply : bool) :
  cache_store self c name rp dp ek apply w1 = (Ok tt, w2) ->
  let x1 := contexts w1 !!! c in
  let x2 := contexts w2 !!! c in
  (forall c', c' <> c -> contexts w2 !! c' = contexts w1 !! c') /\
  project_id x2 = project_id x1 /\ meta x2 = meta x1 /\
  cache_path x2 = cache_path x1 /\ generate x2 = generate x1 /\
  (forall name', name' <> name -> cache x2 !! name' = cache x1 !! name') /\
  (forall k, k <> "draft_key" -> bucket_json x2 name !! k = bucket_json x1 name !! k).
Proof.
  intros Hstore x1 x2.
  destruct (cache_store_ok w1 w2 self c name rp dp ek apply Hstore)
    as (f1 & f2 & _ & _ & Happly & _ & _).
  set (stored := set_bucket_json c name "draft_key" ek (set_fs (fun _ => f2) w1)) in Happly.
  assert (contexts w2 = contexts stored) as Hctx.
  { destruct apply.
    - pose proof (Draft_apply_frame self stored) as (_ & Hctx & _).
      by rewrite Happly in Hctx.
    - by inversion Happly. }
  unfold x2. rewrite Hctx. unfold stored, set_bucket_json.
  cbn [contexts set_contexts set_fs]. fold x1.
  split; [intros c' Hc'; by rewrite lookup_insert_ne|].
  rewrite lookup_total_insert_eq. cbn [project_id meta cache_path generate cache].
  repeat (split; [reflexivity|]). split.
  - intros name' Hname'. by rewrite lookup_insert_ne.
  - intros k Hk. unfold bucket_json at 1. cbn [cache].
    rewrite lookup_insert_eq. simpl. by rewrite lookup_insert_ne.
Qed.

Lemma load_into_frame (p : loc) (file : string) : preserves same_but_packs (load_into p file).
Proof.
  intros w. unfold load_into. destruct (pack_load _ _ _); by repeat split.
Qed.

(** X18: a cache hit only reads the cache: whatever the loads and the
    merges do, the file system, the metadata of every bucket, the registries
    and the generators are as before; only packs are written. *)
Theorem cache_hit_only_reads_cache (w : World) (self : loc) (name key : string)
    (zipped apply : bool) :
  bucket_json (ctx_of self w) name !! "draft_key" = Some (effective_key key zipped) ->
  forall n body,
    same_but_packs w (for_in (S n) (Draft_cache self name key zipped apply) body w).2.
Proof.
  intros Hkey n body.
  rewrite (for_in_then_done _ n _ body w
             (cache_next_hit w self name key zipped apply Hkey)).
  unfold cache_hit.
  apply (preserves_bind _ same_but_packs_trans);
    [apply (preserves_gets _ same_but_packs_refl)|intros a].
  apply (preserves_bind _ same_but_packs_trans); [apply load_into_frame|intros _].
  apply (preserves_bind _ same_but_packs_trans);
    [apply (preserves_gets _ same_but_packs_refl)|intros d].
  apply (preserves_bind _ same_but_packs_trans); [apply load_into_frame|intros _].
  destruct apply; [apply Draft_apply_frame|apply (preserves_ret _ same_but_packs_refl)].
Qed.

End MoreProperties.

(** ** Properties of Project and ProjectBuilder *)

Section ProjectProperties.

Variable ProjectConfig : Type.
Variable ProjectCache : Type.
Variable path_join : string -> string -> string.
Variable resolve : string -> string.
Variable is_file : string -> bool.
Variable locate_config : list string -> list string.
Variable load_config : option string -> list string -> exn + ProjectConfig.
Variable directory_of : ProjectConfig -> string.
Variable new_cache : string -> string -> ProjectCache.

Local Abbreviation project := (@Project ProjectConfig ProjectCache).
Local Abbreviation config_of :=
  (@Project_config ProjectConfig ProjectCache path_join resolve is_file locate_config
     load_config).

Lemma candidates_in_directory (p : project) (dir : string) :
  path_truthy (config_path p) = false ->
  config_directory p = Some dir -> dir <> "" ->
  config_candidates path_join is_file locate_config p =
    filter (fun path => is_file path = true) (path_join dir <$> config_detect p).
Proof.
  intros Hpath Hdir Hne. unfold config_candidates. rewrite Hpath, Hdir. simpl.
  by rewrite bool_decide_eq_false_2.
Qed.

(** X19: with no explicit config path, the config is loaded from the first
    name of [config_detect], in the order of that list, that is a file of
    the config directory; later names are not considered. *)
Theorem config_detects_first_file (p : project) (dir name : string)
    (before after : list string) :
  resolved_config p = None ->
  path_truthy (config_path p) = false ->
  config_directory p = Some dir -> dir <> "" ->
  config_detect p = before ++ name :: after ->
  Forall (fun n => is_file (path_join dir n) = false) before ->
  is_file (path_join dir name) = true ->
  config_of p =
    load_resolved load_config (Some (resolve (path_join dir name))) p.
Proof.
  intros Hnone Hpath Hdir Hne Hdetect Hbefore Hname.
  unfold Project_config. rewrite Hnone.
  rewrite (candidates_in_directory p dir Hpath Hdir Hne), Hdetect.
  rewrite fmap_app, filter_app, fmap_cons, filter_cons_True by done.
  assert (filter (fun path => is_file path = true) (path_join dir <$> before) = [])
    as ->; [|done].
  clear Hdetect. induction Hbefore as [|n before Hn Hbefore IH]; [done|].
  rewrite fmap_cons, filter_cons_False by congruence. exact IH.
Qed.

(** X20: when no name of [config_detect] is a file of the config directory,
    the config is built from the overrides alone if there are any, and
    [config] raises "Couldn't locate config file." otherwise, leaving the
    project as it is. *)
Theorem config_without_file (p : project) (dir : string) :
  resolved_config p = None ->
  path_truthy (config_path p) = false ->
  config_directory p = Some dir -> dir <> "" ->
  Forall (fun n => is_file (path_join dir n) = false) (config_detect p) ->
  config_of p =
    match overrides_of p with
    | [] => (inl (ErrorMessage "Couldn't locate config file."), p)
    | _ :: _ => load_resolved load_config None p
    end.
Proof.
  intros Hnone Hpath Hdir Hne Hall.
  unfold Project_config. rewrite Hnone.
  rewrite (candidates_in_directory p dir Hpath Hdir Hne).
  assert (filter (fun path => is_file path = true) (path_join dir <$> config_detect p) = [])
    as ->; [|done].
  induction Hall as [|n names Hn Hall IH]; [done|].
  rewrite fmap_cons, filter_cons_False by congruence. exact IH.
Qed.

End ProjectProperties.

Section ProjectMemo.

Variable ProjectConfig : Type.
Variable ProjectCache : Type.
Variable path_join path_join' : string -> string -> string.
Variable resolve resolve' : string -> string.
Variable is_file is_file' : string -> bool.
Variable locate_config locate_config' : list string -> list string.
Variable load_config load_config' : option string -> list string -> exn + ProjectConfig.
Variable directory_of directory_of' : ProjectConfig -> string.
Variable new_cache new_cache' : string -> string -> ProjectCache.

Local Abbreviation project := (@Project ProjectConfig ProjectCache).

Lemma config_resolved (p p' : project) (c : ProjectConfig) :
  Project_config path_join resolve is_file locate_config load_config p = (inr c, p') ->
  resolved_config p' = Some c /\ resolved_cache p' = resolved_cache p /\
  cache_name p' = cache_name p.
Proof.
  unfold Project_config, load_resolved.
  destruct (resolved_config p) as [c0|] eqn:Hresolved.
  { intros Hrun. inversion Hrun; subst. done. }
  destruct (config_candidates _ _ _ p) as [|first rest].
  - destruct (overrides_of p); [done|].
    destruct (load_config None _); [done|]. intros Hrun. by inversion Hrun.
  - destruct (load_config (Some _) _); [done|]. intros Hrun. by inversion Hrun.
Qed.

(** X21: a config that was resolved is kept: the next access of [config]
    returns it and leaves the project as it is, whatever the file system and
    the loader would give by then. *)
Theorem config_is_memoized (p p' : project) (c : ProjectConfig) :
  Project_config path_join resolve is_file locate_config load_config p = (inr c, p') ->
  Project_config path_join' resolve' is_file' locate_config' load_config' p' = (inr c, p').
Proof.
  intros [Hresolved _]%config_resolved. unfold Project_config. by rewrite Hresolved.
Qed.

(** X22: the first access of [cache] resolves the config once and builds
    the cache under the directory of that config, from [cache_name] and
    ["generated"]; the cache is kept, so the next access returns it and
    leaves the project as it is. *)
Theorem cache_is_memoized (p p' : project) (c : ProjectCache) :
  Project_cache path_join resolve is_file locate_config load_config directory_of
    new_cache p = (inr c, p') ->
  Project_cache path_join' resolve' is_file' locate_config' load_config' directory_of'
    new_cache' p' = (inr c, p') /\
  (resolved_cache p = None ->
   exists cfg,
     resolved_config p' = Some cfg /\
     (Project_config path_join resolve is_file locate_config load_config p).1 = inr cfg /\
     c = new_cache (path_join (directory_of cfg) (cache_name p))
           (path_join (directory_of cfg) "generated")).
Proof.
  unfold Project_cache at 1.
  destruct (resolved_cache p) as [c0|] eqn:Hcache.
  { intros Hrun. inversion Hrun; subst. split; [|done].
    unfold Project_cache. by rewrite Hcache. }
  unfold Project_directory.
  destruct (Project_config _ _ _ _ _ p) as [[e|cfg] p1] eqn:Hconfig; [done|].
  destruct (config_resolved _ _ _ Hconfig) as (Hresolved & Hcache1 & Hname1).
  assert (Project_config path_join resolve is_file locate_config load_config p1 =
          (inr cfg, p1)) as ->.
  { unfold Project_config. by rewrite Hresolved. }
  intros Hrun. inversion Hrun; subst. split.
  - unfold Project_cache. done.
  - intros _. exists cfg. simpl. by rewrite Hname1.
Qed.

End ProjectMemo.

(** X23: [build] forces [link] off with [no_link]; without [no_link] it
    keeps a [link] option that is set and sets it to true only when it is
    missing.  The other options and the other entries of [meta] are kept.
    The option is written into the config, so on the same config a build
    after a [no_link] build keeps [link] off. *)
Theorem build_meta_link (no_link : bool) (meta : gmap string (gmap string jval)) :
  let autosave := default ∅ (meta !! "autosave") in
  let autosave' := default ∅ (build_meta no_link meta !! "autosave") in
  autosave' !! "link" =
    (if no_link then Some (JBool false)
     else Some (default (JBool true) (autosave !! "link"))) /\
  (forall option, option <> "link" -> autosave' !! option = autosave !! option) /\
  (forall entry, entry <> "autosave" -> build_meta no_link meta !! entry = meta !! entry) /\
  default ∅ (build_meta false (build_meta true meta) !! "autosave") !! "link" =
    Some (JBool false).
Proof.
  intros autosave autosave'. unfold autosave', build_meta. fold autosave.
  rewrite !lookup_insert_eq. simpl. repeat split.
  - destruct no_link; [by rewrite lookup_insert_eq|].
    destruct (autosave !! "link") as [v|] eqn:Hlink; [done|by rewrite lookup_insert_eq].
  - intros option Hoption. destruct no_link; [by rewrite lookup_insert_ne|].
    destruct (autosave !! "link"); [done|by rewrite lookup_insert_ne].
  - intros entry Hentry. by rewrite lookup_insert_ne.
  - by rewrite !lookup_insert_eq.
Qed.

(** X24: the default names of the resource pack and of the data pack of a
    project are different, for every project id and version. *)
Theorem default_pack_names_differ (project_id project_version : string) :
  default_pack_name project_id project_version "_resource_pack" <>
  default_pack_name project_id project_version "_data_pack".
Proof.
  unfold default_pack_name. intros Heq. apply String.app_inj in Heq. discriminate Heq.
Qed.

(** *** The further properties on the small build *)

Lemma outcome_and_store {A B : Type} (run : A * B) (a : A) : run.1 = a -> run = (a, run.2).
Proof. destruct run as [a' b]. simpl. by intros ->. Qed.

Lemma push_gives_root_the_prefix_witness :
  ctx (self_of (generate (ctx_of 1 example_world)) example_world) =
    ctx (self_of 1 example_world) /\
  (get_prefix 0 "/" (push_enter 1 example_world).2).1 = Ok "a/b/".
Proof.
  split; [reflexivity|].
  exact (f_equal fst (push_gives_root_the_prefix example_world 1 "/" eq_refl)).
Defined.

Lemma format_ok_placeholders_witness :
  plain_template "{incr}-{incr}" = true /\
  (format example_hash 1 "{incr}-{incr}" None example_world).1 = Ok "0-1" /\
  (tokenize "{incr}-{incr}").2 = None.
Proof.
  split; [reflexivity|]. split; [reflexivity|].
  exact (proj1 (format_ok_placeholders example_hash example_world 1 "{incr}-{incr}" None
                  "0-1" (format example_hash 1 "{incr}-{incr}" None example_world).2
                  eq_refl eq_refl)).
Defined.

Lemma format_plain_text_witness :
  Forall (fun c => c <> "{"%char /\ c <> "}"%char) (list_ascii_of_string "load") /\
  format example_hash 1 "load" None example_world = (Ok "load", example_world).
Proof.
  assert (Forall (fun c => c <> "{"%char /\ c <> "}"%char) (list_ascii_of_string "load"))
    as Hplain by (repeat constructor; discriminate).
  split; [exact Hplain|].
  exact (format_plain_text example_hash example_world 1 "load" None Hplain).
Defined.

Lemma format_counts_incr_witness :
  plain_template "{incr}-{incr}" = true /\
  (format example_hash 1 "{incr}-{incr}" None example_world).1 = Ok "0-1" /\
  default 0%Z
    (registry_at 0 (format example_hash 1 "{incr}-{incr}" None example_world).2
       !! [PStr "ns"; PStr "a"; PStr "b"; PStr "{incr}-{incr}"]) = 2%Z.
Proof.
  split; [reflexivity|]. split; [reflexivity|].
  exact (format_counts_incr example_hash example_world 1 "{incr}-{incr}" None
           "0-1" (format example_hash 1 "{incr}-{incr}" None example_world).2
           eq_refl eq_refl).
Defined.

Lemma call_stores_in_one_pack_witness :
  let run := call example_hash example_data_field_map example_assets_field_map
               example_render 1 [ArgFile greeting] None None [] example_world in
  is_Some (generators example_world !! 1) /\
  run.1 = Ok "ns:a/b/generated_0" /\
  exists fmt file q,
    call_arguments [ArgFile greeting] None = Ok (fmt, ArgFile file) /\
    let g := self_of 1 example_world in
    let p := if bool_decide (is_Some (example_data_field_map !! file_class file))
             then data g else assets g in
    pack_setitem "ns:a/b/generated_0" file (pack_at p example_world) = Ok q /\
    packs run.2 = <[p := q]> (packs example_world) /\
    contexts run.2 = contexts example_world /\ fs run.2 = fs example_world.
Proof.
  intros run.
  assert (is_Some (generators example_world !! 1)) as Hself by (eexists; reflexivity).
  assert (run.1 = Ok "ns:a/b/generated_0") as Hkey by (vm_compute; reflexivity).
  split; [exact Hself|]. split; [exact Hkey|].
  exact (call_stores_in_one_pack example_hash example_data_field_map
           example_assets_field_map example_render example_world 1 [ArgFile greeting]
           None [] "ns:a/b/generated_0" run.2 Hself (outcome_and_store run _ Hkey)).
Defined.

Lemma call_render_unknown_class_witness :
  is_Some (generators example_world !! 1) /\
  example_data_field_map !! "Texture" = None /\
  example_assets_field_map !! "Texture" = None /\
  forall key,
    (call example_hash example_data_field_map example_assets_field_map example_render
       1 [] (Some (mkFile "Texture" [])) None [] example_world).1 <> Ok key.
Proof.
  assert (is_Some (generators example_world !! 1)) as Hself by (eexists; reflexivity).
  split; [exact Hself|]. split; [reflexivity|]. split; [reflexivity|].
  intros key.
  destruct (call_render_unknown_class example_hash example_data_field_map
              example_assets_field_map example_render example_world 1 []
              (mkFile "Texture" []) None [] Hself eq_refl eq_refl)
    as (named & w1 & _ & _ & _ & ->).
  destruct named as [k|e]; [|discriminate].
  destruct (pack_setitem _ _ _); discriminate.
Defined.

Lemma draft_registration_is_isolated_witness :
  is_Some (packs example_world !! 1) /\
  (forall key group file kw u,
      packs (example_render key group file kw u).2 !! 1 = packs u !! 1) /\
  packs (bind (draft 1)
           (fun d => call example_hash example_data_field_map example_assets_field_map
                       example_render d [ArgStr "hello"] (Some greeting) None [])
           example_world).2 !! 1 = packs example_world !! 1.
Proof.
  assert (is_Some (packs example_world !! 1)) as Hp by (eexists; reflexivity).
  assert (forall key group file kw u,
             packs (example_render key group file kw u).2 !! 1 = packs u !! 1) as Hrender
    by reflexivity.
  split; [exact Hp|]. split; [exact Hrender|].
  exact (draft_registration_is_isolated example_hash example_data_field_map
           example_assets_field_map example_render example_world 1 [ArgStr "hello"]
           (Some greeting) None [] 1 Hp Hrender).
Defined.

Lemma cache_store_keeps_other_metadata_witness :
  let stored := cache_store 2 0 "mycache" ".beet_cache/mycache/draft_resource_pack"
                  ".beet_cache/mycache/draft_data_pack" "v2 zipped=False" false
                  cached_world in
  stored.1 = Ok tt /\
  project_id (contexts stored.2 !!! 0) = project_id (contexts cached_world !!! 0) /\
  meta (contexts stored.2 !!! 0) = meta (contexts cached_world !!! 0).
Proof.
  intros stored.
  assert (stored.1 = Ok tt) as Hstored by (vm_compute; reflexivity).
  split; [exact Hstored|].
  destruct (cache_store_keeps_other_metadata cached_world stored.2 2 0 "mycache"
              ".beet_cache/mycache/draft_resource_pack"
              ".beet_cache/mycache/draft_data_pack" "v2 zipped=False" false
              (outcome_and_store stored _ Hstored))
    as (_ & Hid & Hmeta & _).
  split; assumption.
Defined.

Lemma cache_hit_only_reads_cache_witness :
  bucket_json (ctx_of 2 cached_world) "mycache" !! "draft_key" =
    Some (effective_key "v1" false) /\
  forall n body,
    same_but_packs cached_world
      (for_in (S n) (Draft_cache 2 "mycache" "v1" false true) body cached_world).2.
Proof.
  split; [reflexivity|].
  exact (cache_hit_only_reads_cache cached_world 2 "mycache" "v1" false true eq_refl).
Defined.

Lemma config_detects_first_file_witness :
  resolved_config example_project = None /\
  config_detect example_project =
    ["beet.json"; "beet.toml"] ++ "beet.yml" :: ["beet.yaml"; "pyproject.toml"] /\
  Forall (fun n => example_is_file (example_join "proj" n) = false)
    ["beet.json"; "beet.toml"] /\
  example_is_file (example_join "proj" "beet.yml") = true /\
  (Project_config example_join (fun path => path) example_is_file example_locate
     example_load example_project).1 = inr "proj/beet.yml".
Proof.
  assert (Forall (fun n => example_is_file (example_join "proj" n) = false)
            ["beet.json"; "beet.toml"]) as Hbefore by (repeat constructor).
  split; [reflexivity|]. split; [reflexivity|]. split; [exact Hbefore|].
  split; [reflexivity|].
  rewrite (config_detects_first_file string (string * string) example_join
             (fun path => path) example_is_file example_locate example_load
             example_project "proj" "beet.yml" ["beet.json"; "beet.toml"]
             ["beet.yaml"; "pyproject.toml"] eq_refl eq_refl eq_refl);
    [reflexivity|discriminate|reflexivity|exact Hbefore|reflexivity].
Defined.

Lemma config_without_file_witness :
  Forall (fun n => example_is_file (example_join "elsewhere" n) = false)
    (config_detect example_empty_project) /\
  Project_config example_join (fun path => path) example_is_file example_locate
    example_load example_empty_project =
    (inl (ErrorMessage "Couldn't locate config file."), example_empty_project).
Proof.
  assert (Forall (fun n => example_is_file (example_join "elsewhere" n) = false)
            (config_detect example_empty_project)) as Hnone by (repeat constructor).
  split; [exact Hnone|].
  rewrite (config_without_file string (string * string) example_join
             (fun path => path) example_is_file example_locate example_load
             example_empty_project "elsewhere" eq_refl eq_refl eq_refl);
    [reflexivity|discriminate|exact Hnone].
Defined.

Lemma config_is_memoized_witness :
  let first := Project_config example_join (fun path => path) example_is_file
                 example_locate example_load example_project in
  first = (inr "proj/beet.yml", first.2) /\
  Project_config example_join (fun path => path) (fun _ => false) example_locate
    (fun _ _ => inl IndexError) first.2 = (inr "proj/beet.yml", first.2).
Proof.
  intros first.
  assert (first = (inr "proj/beet.yml", first.2)) as Hfirst by reflexivity.
  split; [exact Hfirst|].
  exact (config_is_memoized string (string * string) example_join example_join
           (fun path => path) (fun path => path) example_is_file (fun _ => false)
           example_locate example_locate example_load (fun _ _ => inl IndexError)
           example_project first.2 "proj/beet.yml" Hfirst).
Defined.

Lemma cache_is_memoized_witness :
  let first := Project_cache example_join (fun path => path) example_is_file
                 example_locate example_load example_directory pair example_project in
  first = (inr ("proj/.beet_cache", "proj/generated"), first.2) /\
  Project_cache example_join (fun path => path) (fun _ => false) example_locate
    (fun _ _ => inl IndexError) example_directory pair first.2 =
    (inr ("proj/.beet_cache", "proj/generated"), first.2).
Proof.
  intros first.
  assert (first = (inr ("proj/.beet_cache", "proj/generated"), first.2)) as Hfirst
    by reflexivity.
  split; [exact Hfirst|].
  exact (proj1 (cache_is_memoized string (string * string) example_join example_join
                  (fun path => path) (fun path => path) example_is_file (fun _ => false)
                  example_locate example_locate example_load (fun _ _ => inl IndexError)
                  example_directory example_directory pair pair
                  example_project first.2 ("proj/.beet_cache", "proj/generated") Hfirst)).
Defined.
